(** * The schema compiler of kong (build.go), embedded in Rocq

    The Go file compiles a struct, read by reflection, into a tree of
    nodes.  The embedding follows the file function by function:
    [flattenedFields], [buildNode], [buildChild], [buildField],
    [buildGroupForKey] and [build].

    - the reflected structure is an inductive value ([rvalue]) next to its
      types ([rtype]); a [reflect.Value] is such a value with the
      permission bits of package reflect ([rflag]);
    - the schema is a tree: two references never share a target; what
      the flattener writes into the structure it is given (the hydrated
      pointers) is returned as the structure after the call;
    - the registration set [seenFlags] (a [map[string]bool] that only ever
      holds [true]) is a [gset string], threaded through the builders;
    - a Go function returning [(x, error)] returns a [result]; a run-time
      panic of package reflect is the outcome [Panic];
    - the recursion of the builders follows the nesting of the schema and
      is driven by a fuel argument; [OutOfFuel] is the outcome of too
      little fuel and is never an error of the program. *)

From Stdlib Require Import ZArith Ascii String List Bool Lia.
From stdpp Require Import base option list gmap strings sets.

#[local] Set Warnings "-register-all,-clear-no-such-hyp".

Local Open Scope string_scope.
Local Open Scope list_scope.
Local Open Scope Z_scope.

(** ** Outcomes *)

(** The errors [build] can return, one constructor per [fmt.Errorf] or
    [failField] site of the file; the arguments are the values formatted
    into the message.  ([failField] is declared outside build.go: it
    makes an error of its format and arguments, naming the struct and the
    field.) *)
Inductive error : Type :=
| ErrNotStructPtr                      (* expected a pointer to a struct *)
| ErrTag (msg : string)                (* returned by parseTag *)
| ErrMixRoot                           (* can't mix ... on %T (build) *)
| ErrRequiredAfterOptional (name : string)
| ErrBranchNoPositional (name : string)
| ErrBranchFirstName (name : string)
| ErrMoreThanOneDefault
| ErrDefaultWithArgs
| ErrMixChild                          (* can't mix ... (buildChild) *)
| ErrUnsupportedType (field : string)
| ErrDuplicateFlag (name : string)
| ErrDuplicateShort (short : Z).

Inductive result (A : Type) : Type :=
| Ok (a : A)
| Err (e : error)
| Panic (msg : string)
| OutOfFuel.
Arguments Ok {A} a.
Arguments Err {A} e.
Arguments Panic {A} msg.
Arguments OutOfFuel {A}.

#[global] Instance result_bind : MBind result := fun A B f r =>
  match r with
  | Ok a => f a
  | Err e => Err e
  | Panic m => Panic m
  | OutOfFuel => OutOfFuel
  end.

(** ** Tags *)

(** [Vars] is [map[string]string]. *)
Abbreviation Vars := (gmap string string) (only parsing).

(** Modelled from the spec: [Vars.CloneWith] is declared outside build.go;
    the child's bindings are merged with the parent's as base, child
    entries taking precedence. *)
Definition CloneWith (v vars : Vars) : Vars := vars ∪ v.

(** Modelled from the spec: [Tag] is declared outside build.go; the
    resolved per-field metadata of the data model, with the fields
    build.go reads or writes.  [Short] is a rune. *)
Record Tag : Type := mkTag {
  Tag_Ignored : bool;
  Tag_Cmd : bool;
  Tag_Arg : bool;
  Tag_Required : bool;
  Tag_Optional : bool;
  Tag_Name : string;
  Tag_Help : string;
  Tag_Type : string;
  Tag_Default : string;
  Tag_Format : string;
  Tag_PlaceHolder : string;
  Tag_Env : string;
  Tag_Short : Z;
  Tag_Hidden : bool;
  Tag_Enum : string;
  Tag_Group : string;
  Tag_Xor : list string;
  Tag_Vars : Vars;
  Tag_Prefix : string;
  Tag_EnvPrefix : string;
  Tag_Embed : bool;
  Tag_Aliases : list string;
  Tag_Passthrough : bool
}.

(** Modelled from the spec: [newEmptyTag] is declared outside build.go;
    an empty tag, every field at its zero value. *)
Definition newEmptyTag : Tag :=
  mkTag false false false false false "" "" "" "" "" "" "" 0 false ""
        "" [] ∅ "" "" false [] false.

Definition set_Tag_Group (r : Tag) (x : string) : Tag :=
  mkTag (Tag_Ignored r) (Tag_Cmd r) (Tag_Arg r) (Tag_Required r)
    (Tag_Optional r) (Tag_Name r) (Tag_Help r) (Tag_Type r) (Tag_Default r)
    (Tag_Format r) (Tag_PlaceHolder r) (Tag_Env r) (Tag_Short r)
    (Tag_Hidden r) (Tag_Enum r) x (Tag_Xor r) (Tag_Vars r) (Tag_Prefix r)
    (Tag_EnvPrefix r) (Tag_Embed r) (Tag_Aliases r) (Tag_Passthrough r).

Definition set_Tag_Prefix (r : Tag) (x : string) : Tag :=
  mkTag (Tag_Ignored r) (Tag_Cmd r) (Tag_Arg r) (Tag_Required r)
    (Tag_Optional r) (Tag_Name r) (Tag_Help r) (Tag_Type r) (Tag_Default r)
    (Tag_Format r) (Tag_PlaceHolder r) (Tag_Env r) (Tag_Short r)
    (Tag_Hidden r) (Tag_Enum r) (Tag_Group r) (Tag_Xor r) (Tag_Vars r) x
    (Tag_EnvPrefix r) (Tag_Embed r) (Tag_Aliases r) (Tag_Passthrough r).

Definition set_Tag_EnvPrefix (r : Tag) (x : string) : Tag :=
  mkTag (Tag_Ignored r) (Tag_Cmd r) (Tag_Arg r) (Tag_Required r)
    (Tag_Optional r) (Tag_Name r) (Tag_Help r) (Tag_Type r) (Tag_Default r)
    (Tag_Format r) (Tag_PlaceHolder r) (Tag_Env r) (Tag_Short r)
    (Tag_Hidden r) (Tag_Enum r) (Tag_Group r) (Tag_Xor r) (Tag_Vars r)
    (Tag_Prefix r) x (Tag_Embed r) (Tag_Aliases r) (Tag_Passthrough r).

Definition set_Tag_Vars (r : Tag) (x : Vars) : Tag :=
  mkTag (Tag_Ignored r) (Tag_Cmd r) (Tag_Arg r) (Tag_Required r)
    (Tag_Optional r) (Tag_Name r) (Tag_Help r) (Tag_Type r) (Tag_Default r)
    (Tag_Format r) (Tag_PlaceHolder r) (Tag_Env r) (Tag_Short r)
    (Tag_Hidden r) (Tag_Enum r) (Tag_Group r) (Tag_Xor r) x (Tag_Prefix r)
    (Tag_EnvPrefix r) (Tag_Embed r) (Tag_Aliases r) (Tag_Passthrough r).

Definition set_Tag_Env (r : Tag) (x : string) : Tag :=
  mkTag (Tag_Ignored r) (Tag_Cmd r) (Tag_Arg r) (Tag_Required r)
    (Tag_Optional r) (Tag_Name r) (Tag_Help r) (Tag_Type r) (Tag_Default r)
    (Tag_Format r) (Tag_PlaceHolder r) x (Tag_Short r) (Tag_Hidden r)
    (Tag_Enum r) (Tag_Group r) (Tag_Xor r) (Tag_Vars r) (Tag_Prefix r)
    (Tag_EnvPrefix r) (Tag_Embed r) (Tag_Aliases r) (Tag_Passthrough r).

(** ** Reflection: types, values and permission bits *)

(** [reflect.StructField]: the name of a declared field, whether it is
    anonymous (embedded), whether the name is exported, and what its
    annotation string resolves to. *)
Record StructField : Type := mkField {
  Field_Name : string;
  Field_Anonymous : bool;
  Field_Exported : bool;
  Field_parsed : Tag + string
}.

(** Modelled from the spec: [parseTag] is declared outside build.go; the
    Tag Resolver turns the annotation of a field into the structured tag
    record, or fails. *)
Definition parseTag (ft : StructField) : Tag + string := Field_parsed ft.

(** [reflect.Type].  A struct type carries its name (empty for a struct
    literal type), the text of its [Help()] method when it implements
    [HelpProvider], and its declared fields. *)
Inductive rtype : Type :=
| TStruct (name : string) (help : option string)
          (fields : list (StructField * rtype))
| TPtr (elem : rtype)
| TInterface
| TPlugins
| TBool
| TInt
| TString
| TOther (name : string).

(** The value stored in a slot.  A pointer knows its element type and its
    target, [None] for nil; an interface holds its dynamic value, [None]
    for nil; [Plugins] is a slice of interfaces, given by the dynamic
    values of its elements. *)
Inductive rvalue : Type :=
| VStruct (name : string) (help : option string)
          (fields : list (StructField * rvalue))
| VPtr (elem : rtype) (target : option rvalue)
| VInterface (payload : option rvalue)
| VPlugins (elems : list (option rvalue))
| VBool (b : bool)
| VInt (n : Z)
| VString (s : string)
| VOther (name : string).

(** [reflect.Zero]: the zero value of a type. *)
Fixpoint zero (t : rtype) : rvalue :=
  match t with
  | TStruct n h fs =>
      VStruct n h
        ((fix zeros (l : list (StructField * rtype)) :=
            match l with
            | [] => []
            | (f, ft) :: l' => (f, zero ft) :: zeros l'
            end) fs)
  | TPtr e => VPtr e None
  | TInterface => VInterface None
  | TPlugins => VPlugins []
  | TBool => VBool false
  | TInt => VInt 0
  | TString => VString ""
  | TOther n => VOther n
  end.

(** The zero value of the type of a value ([reflect.New(fv.Type()).Elem()]). *)
Fixpoint zeroOf (v : rvalue) : rvalue :=
  match v with
  | VStruct n h fs =>
      VStruct n h
        ((fix zeros (l : list (StructField * rvalue)) :=
            match l with
            | [] => []
            | (f, fv) :: l' => (f, zeroOf fv) :: zeros l'
            end) fs)
  | VPtr e _ => VPtr e None
  | VInterface _ => VInterface None
  | VPlugins _ => VPlugins []
  | VBool _ => VBool false
  | VInt _ => VInt 0
  | VString _ => VString ""
  | VOther n => VOther n
  end.

Inductive Kind : Type :=
| Invalid | Struct | Ptr | Interface | Slice | Bool | Int | String_ | Other.

Definition Kind_eqb (a b : Kind) : bool :=
  match a, b with
  | Invalid, Invalid | Struct, Struct | Ptr, Ptr | Interface, Interface
  | Slice, Slice | Bool, Bool | Int, Int | String_, String_
  | Other, Other => true
  | _, _ => false
  end.

Definition kindOf (v : rvalue) : Kind :=
  match v with
  | VStruct _ _ _ => Struct
  | VPtr _ _ => Ptr
  | VInterface _ => Interface
  | VPlugins _ => Slice
  | VBool _ => Bool
  | VInt _ => Int
  | VString _ => String_
  | VOther _ => Other
  end.

(** The permission bits of a [reflect.Value]: addressable, and read-only
    because reached through an unexported field (sticky) or through an
    unexported embedded field. *)
Record rflag : Type := mkFlag {
  flagAddr : bool;
  flagStickyRO : bool;
  flagEmbedRO : bool
}.

Definition flagRO (f : rflag) : bool := flagStickyRO f || flagEmbedRO f.

(** [reflect.Value]: the zero Value, or a value with its bits. *)
Inductive reflectValue : Type :=
| NoValue
| Val (f : rflag) (v : rvalue).

Definition rKind (x : reflectValue) : Kind :=
  match x with NoValue => Invalid | Val _ v => kindOf v end.

(** [Value.CanSet]. *)
Definition CanSet (x : reflectValue) : bool :=
  match x with
  | NoValue => false
  | Val f _ => flagAddr f && negb (flagRO f)
  end.

(** The bits of [v.Field(i)]: those of [v] without the embedded-RO bit,
    plus a read-only bit when the field is unexported. *)
Definition fieldFlag (f : rflag) (ft : StructField) : rflag :=
  mkFlag (flagAddr f)
         (flagStickyRO f
          || (negb (Field_Exported ft) && negb (Field_Anonymous ft)))
         (negb (Field_Exported ft) && Field_Anonymous ft).

(** The bits of [v.Elem()] on a pointer and on an interface, of
    [v.Index(i)] on a slice, and of [reflect.New(t).Elem()]. *)
Definition ptrElemFlag (f : rflag) : rflag :=
  mkFlag true (flagStickyRO f) (flagEmbedRO f).
Definition ifaceElemFlag (f : rflag) : rflag :=
  mkFlag false (flagRO f) false.
Definition indexFlag (f : rflag) : rflag :=
  mkFlag true (flagRO f) false.
Definition newFlag : rflag := mkFlag true false false.

(** [reflect.Indirect]. *)
Definition Indirect (x : reflectValue) : reflectValue :=
  match x with
  | Val f (VPtr _ (Some t)) => Val (ptrElemFlag f) t
  | Val f (VPtr _ None) => NoValue
  | _ => x
  end.

(** [v.Type().Name()]. *)
Definition typeName (v : rvalue) : string :=
  match v with
  | VStruct n _ _ => n
  | VPtr _ _ => ""
  | VInterface _ => ""
  | VPlugins _ => "Plugins"
  | VBool _ => "bool"
  | VInt _ => "int"
  | VString _ => "string"
  | VOther n => n
  end.

(** ** The model of kong: groups, values, flags and nodes *)

(** Modelled from the spec: [Group] is declared outside build.go; a
    category identified by a key, carrying a display title. *)
Record Group : Type := mkGroup {
  Group_Key : string;
  Group_Title : string;
  Group_Description : string
}.

(** Modelled from the spec: [Mapper] is declared outside build.go; an
    external converter, opaque here and known by its name. *)
Abbreviation Mapper := string (only parsing).

(** Modelled from the spec: [Value] is declared outside build.go; a
    bindable datum, with the fields build.go sets.  Its [Flag]
    back-pointer is the containment of the value in its [Flag] below. *)
Record Value : Type := mkValue {
  Value_Name : string;
  Value_Help : string;
  Value_Default : string;
  Value_DefaultValue : rvalue;
  Value_Mapper : Mapper;
  Value_Tag : Tag;
  Value_Target : reflectValue;
  Value_Enum : string;
  Value_Passthrough : bool;
  Value_Required : bool;
  Value_Format : string;
  Value_Position : Z
}.

Definition set_Value_Position (r : Value) (x : Z) : Value :=
  mkValue (Value_Name r) (Value_Help r) (Value_Default r)
    (Value_DefaultValue r) (Value_Mapper r) (Value_Tag r) (Value_Target r)
    (Value_Enum r) (Value_Passthrough r) (Value_Required r) (Value_Format r)
    x.

(** Modelled from the spec: [Flag] is declared outside build.go; a value
    plus the flag-only metadata.  The embedded [*Value] is the field
    [Flag_Value]. *)
Record Flag : Type := mkFlagOf {
  Flag_Value : Value;
  Flag_Group : option Group;
  Flag_Xor : list string;
  Flag_PlaceHolder : string;
  Flag_Env : string;
  Flag_Short : Z;
  Flag_Hidden : bool
}.

Definition Flag_Name (f : Flag) : string := Value_Name (Flag_Value f).

Inductive NodeType : Type := ApplicationNode | CommandNode | ArgumentNode.

(** Modelled from the spec: [Node] is declared outside build.go; the
    application root, a command or a branching-argument container.  The
    tree owns its children; the non-owning [Parent] back-pointer of the Go
    struct is the position of a node in the tree, and [DefaultCmd] holds
    the designated child. *)
Inductive Node : Type := mkNode {
  Node_Type : NodeType;
  Node_Name : string;
  Node_Help : string;
  Node_Detail : string;
  Node_Group : option Group;
  Node_Hidden : bool;
  Node_Flags : list Flag;
  Node_Positional : list Value;
  Node_Children : list Node;
  Node_DefaultCmd : option Node;
  Node_Target : reflectValue;
  Node_Tag : Tag;
  Node_Aliases : list string;
  Node_Argument : option Value
}.

Definition set_Node_Name (r : Node) (x : string) : Node :=
  mkNode (Node_Type r) x (Node_Help r) (Node_Detail r) (Node_Group r)
    (Node_Hidden r) (Node_Flags r) (Node_Positional r) (Node_Children r)
    (Node_DefaultCmd r) (Node_Target r) (Node_Tag r) (Node_Aliases r)
    (Node_Argument r).

Definition set_Node_Help (r : Node) (x : string) : Node :=
  mkNode (Node_Type r) (Node_Name r) x (Node_Detail r) (Node_Group r)
    (Node_Hidden r) (Node_Flags r) (Node_Positional r) (Node_Children r)
    (Node_DefaultCmd r) (Node_Target r) (Node_Tag r) (Node_Aliases r)
    (Node_Argument r).

Definition set_Node_Detail (r : Node) (x : string) : Node :=
  mkNode (Node_Type r) (Node_Name r) (Node_Help r) x (Node_Group r)
    (Node_Hidden r) (Node_Flags r) (Node_Positional r) (Node_Children r)
    (Node_DefaultCmd r) (Node_Target r) (Node_Tag r) (Node_Aliases r)
    (Node_Argument r).

Definition set_Node_Group (r : Node) (x : option Group) : Node :=
  mkNode (Node_Type r) (Node_Name r) (Node_Help r) (Node_Detail r) x
    (Node_Hidden r) (Node_Flags r) (Node_Positional r) (Node_Children r)
    (Node_DefaultCmd r) (Node_Target r) (Node_Tag r) (Node_Aliases r)
    (Node_Argument r).

Definition set_Node_Hidden (r : Node) (x : bool) : Node :=
  mkNode (Node_Type r) (Node_Name r) (Node_Help r) (Node_Detail r)
    (Node_Group r) x (Node_Flags r) (Node_Positional r) (Node_Children r)
    (Node_DefaultCmd r) (Node_Target r) (Node_Tag r) (Node_Aliases r)
    (Node_Argument r).

Definition set_Node_Flags (r : Node) (x : list Flag) : Node :=
  mkNode (Node_Type r) (Node_Name r) (Node_Help r) (Node_Detail r)
    (Node_Group r) (Node_Hidden r) x (Node_Positional r) (Node_Children r)
    (Node_DefaultCmd r) (Node_Target r) (Node_Tag r) (Node_Aliases r)
    (Node_Argument r).

Definition set_Node_Positional (r : Node) (x : list Value) : Node :=
  mkNode (Node_Type r) (Node_Name r) (Node_Help r) (Node_Detail r)
    (Node_Group r) (Node_Hidden r) (Node_Flags r) x (Node_Children r)
    (Node_DefaultCmd r) (Node_Target r) (Node_Tag r) (Node_Aliases r)
    (Node_Argument r).

Definition set_Node_Children (r : Node) (x : list Node) : Node :=
  mkNode (Node_Type r) (Node_Name r) (Node_Help r) (Node_Detail r)
    (Node_Group r) (Node_Hidden r) (Node_Flags r) (Node_Positional r) x
    (Node_DefaultCmd r) (Node_Target r) (Node_Tag r) (Node_Aliases r)
    (Node_Argument r).

Definition set_Node_DefaultCmd (r : Node) (x : option Node) : Node :=
  mkNode (Node_Type r) (Node_Name r) (Node_Help r) (Node_Detail r)
    (Node_Group r) (Node_Hidden r) (Node_Flags r) (Node_Positional r)
    (Node_Children r) x (Node_Target r) (Node_Tag r) (Node_Aliases r)
    (Node_Argument r).

Definition set_Node_Tag (r : Node) (x : Tag) : Node :=
  mkNode (Node_Type r) (Node_Name r) (Node_Help r) (Node_Detail r)
    (Node_Group r) (Node_Hidden r) (Node_Flags r) (Node_Positional r)
    (Node_Children r) (Node_DefaultCmd r) (Node_Target r) x (Node_Aliases r)
    (Node_Argument r).

Definition set_Node_Aliases (r : Node) (x : list string) : Node :=
  mkNode (Node_Type r) (Node_Name r) (Node_Help r) (Node_Detail r)
    (Node_Group r) (Node_Hidden r) (Node_Flags r) (Node_Positional r)
    (Node_Children r) (Node_DefaultCmd r) (Node_Target r) (Node_Tag r) x
    (Node_Argument r).

Definition set_Node_Argument (r : Node) (x : option Value) : Node :=
  mkNode (Node_Type r) (Node_Name r) (Node_Help r) (Node_Detail r)
    (Node_Group r) (Node_Hidden r) (Node_Flags r) (Node_Positional r)
    (Node_Children r) (Node_DefaultCmd r) (Node_Target r) (Node_Tag r)
    (Node_Aliases r) x.

(** Modelled from the spec: [Application] is declared outside build.go;
    the application-level object that exposes the root node, so that
    [app.Tag] and [app.Flags] are the root node's. *)
Record Application : Type := mkApplication {
  Application_Node : Node
}.

(** Modelled from the spec: [Kong] is declared outside build.go.  What
    build.go reads of it: the type-conversion registry (a lookup that
    answers with a mapper or nil), the field-exclusion patterns (each a
    [MatchString] predicate), the predeclared groups, the template
    variables and the global flags [k.extraFlags()] returns. *)
Record Kong : Type := mkKong {
  registry_ForValue : reflectValue -> option Mapper;
  registry_ForNamedValue : string -> reflectValue -> option Mapper;
  ignoreFields : list (string -> bool);
  groups : list Group;
  vars : Vars;
  extraFlags : list Flag
}.

(** ** Strings *)

(** [strings.Join]. *)
Fixpoint Join (elems : list string) (sep : string) : string :=
  match elems with
  | [] => ""
  | [s] => s
  | s :: rest => s +:+ sep +:+ Join rest sep
  end.

Definition byteOf (n : Z) : ascii := ascii_of_N (Z.to_N n).

(** [string(r)] for a rune [r]: its UTF-8 encoding, the encoding of
    U+FFFD for a value that is not a valid code point. *)
Definition runeString (r : Z) : string :=
  let r := if (r <? 0) || (0x10FFFF <? r)
              || ((0xD800 <=? r) && (r <=? 0xDFFF))
           then 0xFFFD else r in
  if r <? 0x80 then String (byteOf r) ""
  else if r <? 0x800 then
    String (byteOf (Z.lor 0xC0 (Z.shiftr r 6)))
      (String (byteOf (Z.lor 0x80 (Z.land r 0x3F))) "")
  else if r <? 0x10000 then
    String (byteOf (Z.lor 0xE0 (Z.shiftr r 12)))
      (String (byteOf (Z.lor 0x80 (Z.land (Z.shiftr r 6) 0x3F)))
         (String (byteOf (Z.lor 0x80 (Z.land r 0x3F))) ""))
  else
    String (byteOf (Z.lor 0xF0 (Z.shiftr r 18)))
      (String (byteOf (Z.lor 0x80 (Z.land (Z.shiftr r 12) 0x3F)))
         (String (byteOf (Z.lor 0x80 (Z.land (Z.shiftr r 6) 0x3F)))
            (String (byteOf (Z.lor 0x80 (Z.land r 0x3F))) ""))).

(** ** The schema flattener *)

Record flattenedField : Type := mkFlattened {
  ff_field : StructField;
  ff_value : reflectValue;
  ff_tag : Tag
}.

(** Lines 93-102: what the loop over [sub] does to one entry that comes
    out of an embedded structure whose field has the tag [tag]. *)
Definition composeTag (tag : Tag) (subf : flattenedField) : flattenedField :=
  let t := ff_tag subf in
  let t := if String.eqb (Tag_Group t) "" then set_Tag_Group t (Tag_Group tag)
           else t in
  let t := set_Tag_Prefix t (Tag_Prefix tag +:+ Tag_Prefix t) in
  let t := set_Tag_EnvPrefix t (Tag_EnvPrefix tag +:+ Tag_EnvPrefix t) in
  let t := set_Tag_Vars t (CloneWith (Tag_Vars tag) (Tag_Vars t)) in
  mkFlattened (ff_field subf) (ff_value subf) t.

(** Lines 65-68.  The field's value [x] has the bits [fl].  For a command
    or embed field of pointer kind a fresh zero structure replaces the
    target, whatever it was; [Set] panics on a slot that cannot be set.
    The answer is the value [fv] now stands for, its bits, and how the
    slot is rebuilt from that value once it has been worked on. *)
Definition hydrate (tag : Tag) (fl : rflag) (x : rvalue)
  : result (rflag * rvalue * (rvalue -> rvalue)) :=
  match x with
  | VPtr e _ =>
      if Tag_Cmd tag || Tag_Embed tag then
        if CanSet (Val fl x)
        then Ok (newFlag, zero e, fun s => VPtr e (Some s))
        else Panic "reflect.Value.Set on a value that cannot be set"
      else Ok (fl, x, fun s => s)
  | _ => Ok (fl, x, fun s => s)
  end.

Section FlattenLoop.

(** The recursive call [flattenedFields(fv)]: it answers with the value
    as the call leaves it and the flattened entries. *)
Variable rec : reflectValue -> result (rvalue * list flattenedField).

(** [flattenedFields(x.Elem())] for the dynamic value [p] of an
    interface [x]; the zero Value when the interface is nil. *)
Definition flattenElem (fl : rflag) (p : option rvalue)
  : result (option rvalue * list flattenedField) :=
  match p with
  | None => '(_, fields) ← rec NoValue; Ok (None, fields)
  | Some c => '(c', fields) ← rec (Val fl c); Ok (Some c', fields)
  end.

(** Lines 80-86: the elements of a [Plugins] value, in order. *)
Fixpoint flattenPlugins (fl : rflag) (elems : list (option rvalue))
  : result (list (option rvalue) * list flattenedField) :=
  match elems with
  | [] => Ok ([], [])
  | e :: rest =>
      '(e', fields) ← flattenElem fl e;
      '(rest', out) ← flattenPlugins fl rest;
      Ok (e' :: rest', fields ++ out)
  end.

(** One turn of the loop of lines 54-105 on the field [ft] holding [x],
    in a struct value with the bits [f]: the field's value afterwards
    and the entries appended to [out]. *)
Definition flattenField (f : rflag) (ft : StructField) (x : rvalue)
  : result (rvalue * list flattenedField) :=
  match parseTag ft with
  | inr msg => Err (ErrTag msg)
  | inl tag =>
      if Tag_Ignored tag then Ok (x, [])
      else
        '(fl, c, wrap) ← hydrate tag (fieldFlag f ft) x;
        let fv := Val fl c in
        if negb (Field_Anonymous ft) && negb (Tag_Embed tag) then
          Ok (wrap c, if CanSet fv then [mkFlattened ft fv tag] else [])
        else
          match c with
          | VInterface p =>
              '(p', sub) ← flattenElem (ifaceElemFlag fl) p;
              Ok (wrap (VInterface p'), map (composeTag tag) sub)
          | VPlugins elems =>
              '(elems', fields) ←
                flattenPlugins (ifaceElemFlag (indexFlag fl)) elems;
              Ok (wrap (VPlugins elems'), fields)
          | _ =>
              '(c', sub) ← rec fv;
              Ok (wrap c', map (composeTag tag) sub)
          end
  end.

Fixpoint flattenLoop (f : rflag) (fields : list (StructField * rvalue))
  : result (list (StructField * rvalue) * list flattenedField) :=
  match fields with
  | [] => Ok ([], [])
  | (ft, x) :: rest =>
      '(x', out1) ← flattenField f ft x;
      '(rest', out2) ← flattenLoop f rest;
      Ok ((ft, x') :: rest', out1 ++ out2)
  end.

End FlattenLoop.

(** [flattenedFields]: the value behind [v] after the call (the hydrated
    pointers are attached in place) and the flattened entries.
    [NumField] panics on anything that is not a struct. *)
Fixpoint flattenedFields (fuel : nat) (v : reflectValue)
  : result (rvalue * list flattenedField) :=
  match fuel with
  | O => OutOfFuel
  | S fuel' =>
      match Indirect v with
      | Val f (VStruct n h fields) =>
          '(fields', out) ← flattenLoop (flattenedFields fuel') f fields;
          Ok (match v with
              | Val _ (VPtr e _) => VPtr e (Some (VStruct n h fields'))
              | _ => VStruct n h fields'
              end, out)
      | _ => Panic "reflect: call of reflect.Value.NumField on a non-struct"
      end
  end.

(** ** Groups *)

Definition buildGroupForKey (k : Kong) (key : string) : option Group :=
  if String.eqb key "" then None
  else
    match find (fun group => String.eqb (Group_Key group) key) (groups k) with
    | Some group => Some group
    | None => Some (mkGroup key key "")
    end.

(** ** The leaf field builder *)

(** The keys under which a flag is registered in [seenFlags]. *)
Definition longKey (name : string) : string := "--" +:+ name.
Definition shortKey (short : Z) : string := "-" +:+ runeString short.

(** Line 249. *)
Definition requiredOf (tag : Tag) : bool :=
  (negb (Tag_Arg tag) && Tag_Required tag)
  || (Tag_Arg tag && negb (Tag_Optional tag)).

Definition buildField (k : Kong) (node : Node) (v : reflectValue)
    (ft : StructField) (fv : reflectValue) (tag : Tag) (name : string)
    (seenFlags : gset string) : result (Node * gset string) :=
  match registry_ForNamedValue k (Tag_Type tag) fv with
  | None => Err (ErrUnsupportedType (Field_Name ft))
  | Some mapper =>
      match fv with
      | NoValue => Panic "reflect: call of reflect.Value.Type on zero Value"
      | Val _ c =>
          let value :=
            mkValue name (Tag_Help tag) (Tag_Default tag) (zeroOf c) mapper
                    tag fv (Tag_Enum tag) (Tag_Passthrough tag)
                    (requiredOf tag) (Tag_Format tag) 0 in
          if Tag_Arg tag then
            Ok (set_Node_Positional node (Node_Positional node ++ [value]),
                seenFlags)
          else if bool_decide (longKey (Value_Name value) ∈ seenFlags) then
            Err (ErrDuplicateFlag (Value_Name value))
          else
            let seenFlags := {[longKey (Value_Name value)]} ∪ seenFlags in
            seenFlags ←
              (if Tag_Short tag =? 0 then Ok seenFlags
               else if bool_decide (shortKey (Tag_Short tag) ∈ seenFlags)
               then Err (ErrDuplicateShort (Tag_Short tag))
               else Ok ({[shortKey (Tag_Short tag)]} ∪ seenFlags));
            let flag :=
              mkFlagOf value (buildGroupForKey k (Tag_Group tag))
                       (Tag_Xor tag) (Tag_PlaceHolder tag) (Tag_Env tag)
                       (Tag_Short tag) (Tag_Hidden tag) in
            Ok (set_Node_Flags node (Node_Flags node ++ [flag]), seenFlags)
      end
  end.

(** ** The branch builder *)

Definition nonEmpty {A : Type} (l : list A) : bool :=
  match l with [] => false | _ => true end.

Definition isNil {A : Type} (o : option A) : bool :=
  match o with None => true | Some _ => false end.

(** [fv.Addr().Interface().(HelpProvider)]: the text of [Help()] when the
    struct type provides it. *)
Definition helpProvider (fv : reflectValue) : option string :=
  match fv with
  | Val _ (VStruct _ h _) => h
  | _ => None
  end.

Section BuildChild.

(** The recursive call [buildNode(k, fv, typ, seenFlags)]. *)
Variable rec : Kong -> reflectValue -> NodeType -> gset string ->
               result (Node * gset string).

(** Lines 186-196: the child as the tag of its field dresses it. *)
Definition dressChild (k : Kong) (child : Node) (fv : reflectValue)
    (tag : Tag) (name : string) : Node :=
  let child := set_Node_Name child name in
  let child := set_Node_Tag child tag in
  let child := set_Node_Help child (Tag_Help tag) in
  let child := set_Node_Hidden child (Tag_Hidden tag) in
  let child := set_Node_Group child (buildGroupForKey k (Tag_Group tag)) in
  let child := set_Node_Aliases child (Tag_Aliases tag) in
  match helpProvider fv with
  | Some detail => set_Node_Detail child detail
  | None => child
  end.

(** Lines 200-221: the branch-specific part, on the parent [node] and
    the dressed [child]. *)
Definition branchChild (node child : Node) (tag : Tag) (name : string)
  : result (Node * Node) :=
  if Tag_Arg tag then
    match Node_Positional child with
    | [] => Err (ErrBranchNoPositional name)
    | p :: ps =>
        if negb (String.eqb (Value_Name p) name) then
          Err (ErrBranchFirstName (Node_Name child))
        else
          let child := set_Node_Argument child (Some p) in
          let child := set_Node_Positional child ps in
          let child := if String.eqb (Node_Help child) ""
                       then set_Node_Help child (Value_Help p)
                       else child in
          Ok (node, child)
    end
  else if negb (String.eqb (Tag_Default tag) "") then
    match Node_DefaultCmd node with
    | Some _ => Err ErrMoreThanOneDefault
    | None =>
        if negb (String.eqb (Tag_Default tag) "withargs")
           && (nonEmpty (Node_Children child)
               || nonEmpty (Node_Positional child))
        then Err ErrDefaultWithArgs
        else Ok (set_Node_DefaultCmd node (Some child), child)
    end
  else Ok (node, child).

Definition buildChild (k : Kong) (node : Node) (typ : NodeType)
    (v : reflectValue) (ft : StructField) (fv : reflectValue) (tag : Tag)
    (name : string) (seenFlags : gset string)
  : result (Node * gset string) :=
  '(child, seenFlags) ← rec k fv typ seenFlags;
  if negb (CanSet fv) then
    Panic "reflect.Value.Addr or Interface on a value that cannot be set"
  else
    let child := dressChild k child fv tag name in
    '(node, child) ← branchChild node child tag name;
    let node := set_Node_Children node (Node_Children node ++ [child]) in
    if nonEmpty (Node_Positional child) && nonEmpty (Node_Children child)
    then Err ErrMixChild
    else Ok (node, seenFlags).

End BuildChild.

(** ** The node builder *)

(** [camelCase], declared outside build.go, and [strings.ToLower] are
    taken as given: the builders work with any pair of them. *)
Class Naming : Type := {
  camelCase : string -> list string;
  ToLower : string -> string
}.

Section BuildNode.

Context `{Naming}.

Definition dashedString (s : string) : string := Join (camelCase s) "-".

(** Lines 135-140: the public name of a field. *)
Definition fieldName (ft : StructField) (tag : Tag) : string :=
  if String.eqb (Tag_Name tag) "" then
    Tag_Prefix tag +:+ ToLower (dashedString (Field_Name ft))
  else Tag_Prefix tag +:+ Tag_Name tag.

Definition typeNameOf (v : reflectValue) : string :=
  match v with NoValue => "" | Val _ c => typeName c end.

(** Lines 159-165. *)
Definition unsee (flags : list Flag) (seenFlags : gset string)
  : gset string :=
  fold_left
    (fun seen flag =>
       let seen := seen ∖ {[longKey (Flag_Name flag)]} in
       if Flag_Short flag =? 0 then seen
       else seen ∖ {[shortKey (Flag_Short flag)]})
    flags seenFlags.

(** Lines 168-176, from the positional of index [i] on. *)
Fixpoint scanPositional (last : bool) (i : Z) (ps : list Value)
  : result (list Value) :=
  match ps with
  | [] => Ok []
  | p :: rest =>
      if negb last && Value_Required p then
        Err (ErrRequiredAfterOptional (Value_Name p))
      else
        rest' ← scanPositional (Value_Required p) (i + 1) rest;
        Ok (set_Value_Position p i :: rest')
  end.

Section Loop.

Variable rec : Kong -> reflectValue -> NodeType -> gset string ->
               result (Node * gset string).

(** One turn of the loop of lines 124-157. *)
Definition buildEntry (k : Kong) (v : reflectValue) (node : Node)
    (seenFlags : gset string) (field : flattenedField)
  : result (Node * gset string) :=
  if existsb
       (fun r => r (typeNameOf v +:+ "." +:+ Field_Name (ff_field field)))
       (ignoreFields k)
  then Ok (node, seenFlags)
  else
    let ft := ff_field field in
    let fv := ff_value field in
    let tag := ff_tag field in
    let name := fieldName ft tag in
    let tag := set_Tag_Env tag (Tag_EnvPrefix tag +:+ Tag_Env tag) in
    if Kind_eqb (rKind fv) Struct && (Tag_Cmd tag || Tag_Arg tag)
       && isNil (registry_ForValue k fv)
    then
      buildChild rec k node
        (if Tag_Arg tag then ArgumentNode else CommandNode)
        v ft fv tag name seenFlags
    else buildField k node v ft fv tag name seenFlags.

Fixpoint buildEntries (k : Kong) (v : reflectValue)
    (fields : list flattenedField) (node : Node)
    (seenFlags : gset string) : result (Node * gset string) :=
  match fields with
  | [] => Ok (node, seenFlags)
  | field :: rest =>
      '(node, seenFlags) ← buildEntry k v node seenFlags field;
      buildEntries k v rest node seenFlags
  end.

End Loop.

Definition newNode (typ : NodeType) (v : reflectValue) : Node :=
  mkNode typ "" "" "" None false [] [] [] None v newEmptyTag [] None.

Fixpoint buildNode (fuel : nat) (k : Kong) (v : reflectValue)
    (typ : NodeType) (seenFlags : gset string)
  : result (Node * gset string) :=
  match fuel with
  | O => OutOfFuel
  | S fuel' =>
      let node := newNode typ v in
      '(_, fields) ← flattenedFields fuel v;
      '(node, seenFlags) ←
        buildEntries (buildNode fuel') k v fields node seenFlags;
      let seenFlags := unsee (Node_Flags node) seenFlags in
      ps ← scanPositional true 0 (Node_Positional node);
      Ok (set_Node_Positional node ps, seenFlags)
  end.

(** ** The entry point *)

(** [reflect.ValueOf] of an [interface{}]. *)
Definition ValueOf (ast : option rvalue) : reflectValue :=
  match ast with
  | None => NoValue
  | Some c => Val (mkFlag false false false) c
  end.

(** Lines 23-26. *)
Definition seedFlags (flags : list Flag) : gset string :=
  fold_left (fun seen flag => {[Flag_Name flag]} ∪ seen) flags ∅.

Definition build (fuel : nat) (k : Kong) (ast : option rvalue)
  : result Application :=
  let v := ValueOf ast in
  let iv := Indirect v in
  if negb (Kind_eqb (rKind v) Ptr) || negb (Kind_eqb (rKind iv) Struct)
  then Err ErrNotStructPtr
  else
    let seenFlags := seedFlags (extraFlags k) in
    '(node, _) ← buildNode fuel k iv ApplicationNode seenFlags;
    if nonEmpty (Node_Positional node) && nonEmpty (Node_Children node)
    then Err ErrMixRoot
    else
      let node := set_Node_Flags node (extraFlags k ++ Node_Flags node) in
      let node := set_Node_Tag node (set_Tag_Vars newEmptyTag (vars k)) in
      Ok (mkApplication node).

End BuildNode.

(** ** Schemas used as examples *)

Definition lowerAscii (c : ascii) : ascii :=
  let n := N_of_ascii c in
  if ((65 <=? n) && (n <=? 90))%N then ascii_of_N (n + 32) else c.

(** [strings.ToLower] on ASCII text. *)
Fixpoint lowerString (s : string) : string :=
  match s with
  | EmptyString => EmptyString
  | String c r => String (lowerAscii c) (lowerString r)
  end.

(** Field names of one word: [camelCase] leaves them whole. *)
Definition asciiNaming : Naming :=
  Build_Naming (fun s => [s]) lowerString.

(** A registry that knows booleans, integers and strings. *)
Definition plainKong (extra : list Flag) : Kong :=
  mkKong (fun _ => None)
         (fun _ fv =>
            match rKind fv with
            | Bool | Int | String_ => Some "builtin"
            | _ => None
            end)
         [] [] ∅ extra.

(** An exported, named field with the resolved tag [t]. *)
Definition exportedField (n : string) (t : Tag) : StructField :=
  mkField n false true (inl t).

Definition tagShort (r : Z) : Tag :=
  mkTag false false false false false "" "" "" "" "" "" "" r false ""
        "" [] ∅ "" "" false [] false.

Definition tagCmd : Tag :=
  mkTag false true false false false "" "" "" "" "" "" "" 0 false ""
        "" [] ∅ "" "" false [] false.

Definition tagArg (optional : bool) : Tag :=
  mkTag false false true false optional "" "" "" "" "" "" "" 0 false ""
        "" [] ∅ "" "" false [] false.

Definition tagArgBranch (default : string) : Tag :=
  mkTag false false true false false "" "" "" default "" "" "" 0 false ""
        "" [] ∅ "" "" false [] false.

Definition tagDefaultCmd (default : string) : Tag :=
  mkTag false true false false false "" "" "" default "" "" "" 0 false ""
        "" [] ∅ "" "" false [] false.

Definition tagEmbed (prefix : string) : Tag :=
  mkTag false false false false false "" "" "" "" "" "" "" 0 false ""
        "" [] ∅ prefix "" true [] false.

(** [struct { Port int `short:"p"` }]. *)
Definition portStruct : rvalue :=
  VStruct "" None [(exportedField "Port" (tagShort 112), VInt 0)].

(** Scenario A: two sibling commands, each with a flag [--port]/[-p]. *)
Definition siblingsCLI : rvalue :=
  VStruct "CLI" None
    [(exportedField "Serve" tagCmd, portStruct);
     (exportedField "Build" tagCmd, portStruct)].


(** The same two fields, the parent's flag first. *)
Definition clashCLI : rvalue :=
  VStruct "CLI" None
    [(exportedField "Port" newEmptyTag, VInt 0);
     (exportedField "Sub" tagCmd, portStruct)].

(** [build] is given a pointer to the root struct. *)
Definition pointerTo (v : rvalue) : option rvalue :=
  Some (VPtr (TOther (typeName v)) (Some v)).

(** Scenario B: [Src string `arg`; Dst string `arg optional`]. *)
Definition copyCLI : rvalue :=
  VStruct "CLI" None
    [(exportedField "Src" (tagArg false), VString "");
     (exportedField "Dst" (tagArg true), VString "")].

(** Scenario C: an argument branch [Name] whose struct starts with the
    positional [Name], followed by an optional positional [Rest]. *)
Definition nameStruct : rvalue :=
  VStruct "" None
    [(exportedField "Name" (tagArg false), VString "");
     (exportedField "Rest" (tagArg true), VString "")].

Definition branchCLI : rvalue :=
  VStruct "CLI" None [(exportedField "Name" (tagArgBranch ""), nameStruct)].

(** A struct with a sub-command and a positional value. *)
Definition mixedStruct : rvalue :=
  VStruct "" None
    [(exportedField "Sub" tagCmd, VStruct "" None []);
     (exportedField "Pos" (tagArg false), VString "")].


(** The mixed struct as a plain command of the root. *)
Definition mixCLI : rvalue :=
  VStruct "CLI" None [(exportedField "Cmd" tagCmd, mixedStruct)].


(** Two default commands at the same level. *)
Definition twoDefaultCmdsCLI : rvalue :=
  VStruct "CLI" None
    [(exportedField "A" (tagDefaultCmd "1"), VStruct "" None []);
     (exportedField "B" (tagDefaultCmd "1"), VStruct "" None [])].

(** [type Sub struct { N int }] and a command field [Sub *Sub] that
    points to a [Sub] holding 7. *)
Definition subType : rtype :=
  TStruct "Sub" None [(exportedField "N" newEmptyTag, TInt)].

Definition subSeven : rvalue :=
  VStruct "Sub" None [(exportedField "N" newEmptyTag, VInt 7)].

Definition hydrateCLI : rvalue :=
  VStruct "CLI" None
    [(exportedField "Sub" tagCmd, VPtr subType (Some subSeven))].

(** An unexported command field stored as a pointer, and an unexported
    plain field next to an exported one. *)
Definition hiddenPtrCLI : rvalue :=
  VStruct "CLI" None
    [(mkField "sub" false false (inl tagCmd), VPtr subType None)].

Definition hiddenField : StructField :=
  mkField "secret" false false (inl newEmptyTag).

Definition hiddenCLI : rvalue :=
  VStruct "CLI" None
    [(hiddenField, VInt 0); (exportedField "Port" newEmptyTag, VInt 0)].

(** The injected global flag [--help] and a schema with a flag [Help]. *)
Definition helpFlag : Flag :=
  mkFlagOf
    (mkValue "help" "Show context-sensitive help." "" (VBool false)
             "builtin" newEmptyTag (Val newFlag (VBool false)) "" false
             false "" 0)
    None [] "" "" 104 false.

Definition helpCLI : rvalue :=
  VStruct "CLI" None [(exportedField "Help" newEmptyTag, VBool false)].

(** Scenario E: [Host] inside an embed with the prefix "primary-" inside
    an embed with the prefix "db-". *)
Definition hostStruct : rvalue :=
  VStruct "" None [(exportedField "Host" newEmptyTag, VString "")].

Definition primaryStruct : rvalue :=
  VStruct "" None [(exportedField "Primary" (tagEmbed "primary-"), hostStruct)].

Definition dbCLI : rvalue :=
  VStruct "CLI" None [(exportedField "DB" (tagEmbed "db-"), primaryStruct)].

(** The value of an outcome known to be [Ok]. *)
Definition okOr {A : Type} (d : A) (r : result A) : A :=
  match r with Ok a => a | _ => d end.

Definition noNode : Node := newNode ApplicationNode NoValue.

Definition builtNode (r : result (Node * gset string)) : Node :=
  fst (okOr (noNode, ∅) r).

Definition builtApp (r : result Application) : Application :=
  okOr (mkApplication noNode) r.

(** The trees the builders make of the examples. *)
Definition siblingsNode : Node :=
  builtNode (@buildNode asciiNaming 3 (plainKong []) (Val newFlag siblingsCLI)
                        ApplicationNode ∅).

Definition siblingsApp : Application :=
  builtApp (@build asciiNaming 3 (plainKong []) (pointerTo siblingsCLI)).

Definition branchApp : Application :=
  builtApp (@build asciiNaming 3 (plainKong []) (pointerTo branchCLI)).

Definition branchNode : Node :=
  hd noNode (Node_Children (Application_Node branchApp)).

Definition nameNode : Node :=
  builtNode (@buildNode asciiNaming 2 (plainKong []) (Val newFlag nameStruct)
                        ArgumentNode ∅).



Definition copyFields : list flattenedField :=
  snd (okOr (copyCLI, []) (flattenedFields 2 (Val newFlag copyCLI))).


(** ** Schemas used for the further properties *)

(** A configuration with two declared groups of the same key. *)
Definition groupedKong : Kong :=
  mkKong (fun _ => None) (fun _ _ => Some "builtin") []
         [mkGroup "net" "Network" ""; mkGroup "net" "Again" ""] ∅ [].

Definition tagIgnored : Tag :=
  mkTag true false false false false "" "" "" "" "" "" "" 0 false ""
        "" [] ∅ "" "" false [] false.

Definition ignoredField : StructField := exportedField "Skip" tagIgnored.

(** A struct whose second field has a tag that does not resolve. *)
Definition badField : StructField := mkField "Bad" false true (inr "bad tag").

Definition badTagCLI : rvalue :=
  VStruct "CLI" None
    [(exportedField "Port" newEmptyTag, VInt 0); (badField, VInt 0)].

(** An embedded [Plugins] of two elements, pointers to structs. *)
Definition pluginsField : StructField :=
  mkField "Plugins" true true (inl newEmptyTag).

Definition pluginsValue : rvalue :=
  VPlugins [Some (VPtr (TOther "") (Some portStruct));
            Some (VPtr (TOther "") (Some hostStruct))].

Definition pluginsOutcome : rvalue * list flattenedField :=
  okOr (VPlugins [], [])
       (flattenField (flattenedFields 2) newFlag pluginsField pluginsValue).

(** An anonymous pointer field with no tag, pointing to a struct. *)
Definition baseField : StructField :=
  mkField "Base" true true (inl newEmptyTag).

Definition baseOutcome : rvalue * list flattenedField :=
  okOr (VPlugins [], [])
       (flattenField (flattenedFields 2) newFlag baseField
                     (VPtr (TOther "") (Some portStruct))).

(** A root with a default command. *)
Definition defaultCLI : rvalue :=
  VStruct "CLI" None
    [(exportedField "Run" (tagDefaultCmd "1"), VStruct "" None [])].

Definition defaultApp : Application :=
  builtApp (@build asciiNaming 3 (plainKong []) (pointerTo defaultCLI)).

Definition runNode : Node :=
  hd noNode (Node_Children (Application_Node defaultApp)).

(** The mixed struct built as a root. *)
Definition mixedRoot : Node :=
  builtNode (@buildNode asciiNaming 2 (plainKong []) (Val newFlag mixedStruct)
                        ApplicationNode ∅).


Definition dbFields : list flattenedField :=
  snd (okOr (dbCLI, []) (flattenedFields 3 (Val newFlag dbCLI))).

Definition hostEntry : flattenedField :=
  hd (mkFlattened badField NoValue newEmptyTag) dbFields.


(** A struct field with neither a cmd nor an arg tag, before a flag. *)
Definition untaggedCLI : rvalue :=
  VStruct "CLI" None
    [(exportedField "Sub" newEmptyTag, portStruct);
     (exportedField "Port" newEmptyTag, VInt 0)].

Definition untaggedFields : list flattenedField :=
  snd (okOr (untaggedCLI, []) (flattenedFields 2 (Val newFlag untaggedCLI))).

Definition subEntry : flattenedField :=
  hd (mkFlattened badField NoValue newEmptyTag) untaggedFields.

(** ** Notions used to state the properties *)

(** The positions the scan assigns, from [i] on. *)
Fixpoint assignPositions (i : Z) (ps : list Value) : list Value :=
  match ps with
  | [] => []
  | p :: rest => set_Value_Position p i :: assignPositions (i + 1) rest
  end.

(** Some positional is required right after an optional one. *)
Definition requiredAfterOptional (ps : list Value) : Prop :=
  exists (i : nat) (p q : Value),
    ps !! i = Some p /\ ps !! S i = Some q /\
    Value_Required p = false /\ Value_Required q = true.

(** The keys a flag holds in the registration set. *)
Definition flagKeys (flag : Flag) : list string :=
  longKey (Flag_Name flag)
  :: (if Flag_Short flag =? 0 then [] else [shortKey (Flag_Short flag)]).



(** A node and everything below it. *)
Fixpoint subnodes (n : Node) : list Node :=
  n :: flat_map subnodes (Node_Children n).

Definition descendants (n : Node) : list Node :=
  flat_map subnodes (Node_Children n).

(** The child an argument branch ends with: its first positional [p]
    promoted, the others [ps] left. *)
Definition promoted (dchild : Node) (p : Value) (ps : list Value) : Node :=
  let child := set_Node_Argument dchild (Some p) in
  let child := set_Node_Positional child ps in
  if String.eqb (Node_Help child) "" then set_Node_Help child (Value_Help p)
  else child.

(** An argument-branch node holds its promoted argument at position 0 and
    numbers the positionals it keeps from 1. *)
Definition argumentPositions (n : Node) : Prop :=
  Node_Type n = ArgumentNode ->
  exists a, Node_Argument n = Some a /\ Value_Position a = 0 /\
            forall (i : nat) (p : Value),
              Node_Positional n !! i = Some p ->
              Value_Position p = Z.of_nat i + 1.






(** The entries of a flattening outcome, without the structure. *)
Definition entriesOf {A : Type} (r : result (A * list flattenedField))
  : result (list flattenedField) :=
  '(_, out) ← r; Ok out.

(** The nesting depth of a type and of a value: the recursion of the
    flattener and of the node builder goes one level down a struct, a
    pointer, an interface or a Plugins collection at a time. *)
Fixpoint depthT (t : rtype) : nat :=
  match t with
  | TStruct _ _ fs =>
      S ((fix go (l : list (StructField * rtype)) : nat :=
            match l with
            | [] => O
            | (_, ft) :: l' => Nat.max (depthT ft) (go l')
            end) fs)
  | TPtr e => S (depthT e)
  | TInterface | TPlugins => S O
  | _ => O
  end.

Fixpoint depthV (v : rvalue) : nat :=
  match v with
  | VStruct _ _ fs =>
      S ((fix go (l : list (StructField * rvalue)) : nat :=
            match l with
            | [] => O
            | (_, fv) :: l' => Nat.max (depthV fv) (go l')
            end) fs)
  | VPtr e target =>
      S (Nat.max (depthT e)
                 (match target with Some t => depthV t | None => O end))
  | VInterface p => S (match p with Some c => depthV c | None => O end)
  | VPlugins elems =>
      S ((fix go (l : list (option rvalue)) : nat :=
            match l with
            | [] => O
            | e :: l' =>
                Nat.max (match e with Some c => depthV c | None => O end)
                        (go l')
            end) elems)
  | _ => O
  end.

Definition depthR (x : reflectValue) : nat :=
  match x with NoValue => O | Val _ v => depthV v end.

Definition depthFields (l : list (StructField * rvalue)) : nat :=
  fold_right (fun fx d => Nat.max (depthV (snd fx)) d) O l.

Definition depthElem (e : option rvalue) : nat :=
  match e with Some c => depthV c | None => O end.

Definition depthElems (l : list (option rvalue)) : nat :=
  fold_right (fun e d => Nat.max (depthElem e) d) O l.

(** An entry whose value can be set and lies less than [d] levels deep. *)
Definition entryBelow (d : nat) (e : flattenedField) : Prop :=
  CanSet (ff_value e) = true /\ (depthR (ff_value e) < d)%nat.

(** ** Notions used by the further properties *)

(** The two panics of package reflect the flattener can meet. *)
Definition flattenPanic (m : string) : Prop :=
  m = "reflect.Value.Set on a value that cannot be set" \/
  m = "reflect: call of reflect.Value.NumField on a non-struct".

(** An outcome of the flattener: its errors are tag failures, its panics
    the two above. *)
Definition flattenOutcome {A : Type} (r : result A) : Prop :=
  match r with
  | Err e => exists msg, e = ErrTag msg
  | Panic m => flattenPanic m
  | _ => True
  end.

(** An outcome of the node builder: never one of the two errors of the
    entry point, and no panic but the flattener's. *)
Definition nodeOutcome {A : Type} (r : result A) : Prop :=
  match r with
  | Err e => e <> ErrNotStructPtr /\ e <> ErrMixRoot
  | Panic m => flattenPanic m
  | _ => True
  end.

(** The root handed to [build] is a pointer to a struct. *)
Definition isStructPtr (ast : option rvalue) : Prop :=
  exists e n h fields, ast = Some (VPtr e (Some (VStruct n h fields))).

(** Line 125-129: the entry matches one of the exclusion patterns. *)
Definition excluded (k : Kong) (v : reflectValue)
    (field : flattenedField) : bool :=
  existsb (fun r => r (typeNameOf v +:+ "." +:+ Field_Name (ff_field field)))
          (ignoreFields k).

(** Line 145: the entry is built as a branch. *)
Definition isBranch (k : Kong) (field : flattenedField) : bool :=
  Kind_eqb (rKind (ff_value field)) Struct
  && (Tag_Cmd (ff_tag field) || Tag_Arg (ff_tag field))
  && isNil (registry_ForValue k (ff_value field)).

(** The public name, the environment name and the short name of an
    entry. *)
Definition entryName `{Naming} (field : flattenedField) : string :=
  fieldName (ff_field field) (ff_tag field).

Definition entryEnv (field : flattenedField) : string :=
  Tag_EnvPrefix (ff_tag field) +:+ Tag_Env (ff_tag field).

(** The entries that become children, flags and positionals. *)
Definition branchEntries (k : Kong) (v : reflectValue)
    (fields : list flattenedField) : list flattenedField :=
  List.filter (fun field => negb (excluded k v field) && isBranch k field)
              fields.

Definition flagEntries (k : Kong) (v : reflectValue)
    (fields : list flattenedField) : list flattenedField :=
  List.filter (fun field => negb (excluded k v field)
                            && negb (isBranch k field)
                            && negb (Tag_Arg (ff_tag field)))
              fields.

Definition positionalEntries (k : Kong) (v : reflectValue)
    (fields : list flattenedField) : list flattenedField :=
  List.filter (fun field => negb (excluded k v field)
                            && negb (isBranch k field)
                            && Tag_Arg (ff_tag field))
              fields.

(** What the loop of the node builder never writes: everything of a node
    but its flags, positionals, children and default command. *)
Definition header (n : Node) :=
  (Node_Type n, Node_Name n, Node_Help n, Node_Detail n, Node_Group n,
   Node_Hidden n, Node_Target n, Node_Tag n, Node_Aliases n,
   Node_Argument n).

(** The promoted argument of a node, if any, followed by its positionals. *)
Definition arguments (n : Node) : list Value :=
  match Node_Argument n with
  | Some a => a :: Node_Positional n
  | None => Node_Positional n
  end.

(** The default command of a node is one of its children, a command with
    a default marker, and has neither children nor positionals unless the
    marker is "withargs". *)
Definition defaultCmdOk (n : Node) : Prop :=
  forall d, Node_DefaultCmd n = Some d ->
    d ∈ Node_Children n /\
    Tag_Arg (Node_Tag d) = false /\
    Tag_Default (Node_Tag d) <> "" /\
    (Tag_Default (Node_Tag d) = "withargs" \/
     (Node_Children d = [] /\ Node_Positional d = [])).

(** No required value after an optional one, at any distance. *)
Definition requiredFirst (ps : list Value) : Prop :=
  forall (i j : nat) (p q : Value),
    (i < j)%nat -> ps !! i = Some p -> ps !! j = Some q ->
    Value_Required q = true -> Value_Required p = true.




(** What the composition of tags leaves alone. *)
Definition tagCore (t : Tag) :=
  (Tag_Ignored t, Tag_Cmd t, Tag_Arg t, Tag_Required t, Tag_Optional t,
   Tag_Name t, Tag_Help t, Tag_Type t, Tag_Default t, Tag_Format t,
   Tag_PlaceHolder t, Tag_Env t, Tag_Short t, Tag_Hidden t, Tag_Enum t,
   Tag_Xor t, Tag_Embed t, Tag_Aliases t, Tag_Passthrough t).

(** An entry of a flattening stands for a named field whose tag parses,
    is neither ignored nor embed, and is the tag of the entry but for
    what the embedding fields have added: prefixes in front, variables,
    and a group when the field has none. *)
Definition entryOfField (e : flattenedField) : Prop :=
  Field_Anonymous (ff_field e) = false /\
  exists t0,
    parseTag (ff_field e) = inl t0 /\
    Tag_Ignored t0 = false /\ Tag_Embed t0 = false /\
    tagCore (ff_tag e) = tagCore t0 /\
    (exists p, Tag_Prefix (ff_tag e) = p +:+ Tag_Prefix t0) /\
    (exists p, Tag_EnvPrefix (ff_tag e) = p +:+ Tag_EnvPrefix t0) /\
    (Tag_Group t0 <> "" -> Tag_Group (ff_tag e) = Tag_Group t0) /\
    Tag_Vars t0 ⊆ Tag_Vars (ff_tag e).

(** * Properties *)

(** ** Outcomes of sequenced calls *)

Lemma bind_Ok_inv {A B : Type} (f : A -> result B) (r : result A) (b : B) :
  r ≫= f = Ok b -> exists a, r = Ok a /\ f a = Ok b.
Proof.
  destruct r as [a| | |]; simpl; intros Hb; try discriminate.
  exists a. split; [reflexivity | exact Hb].
Qed.

(** ** Positional ordering *)

Lemma assignPositions_lookup (ps : list Value) (i : Z) (j : nat) :
  assignPositions i ps !! j =
  (fun p => set_Value_Position p (i + Z.of_nat j)) <$> ps !! j.
Proof.
  revert i j. induction ps as [|p ps IH]; intros i j.
  - reflexivity.
  - destruct j as [|j]; simpl.
    + f_equal. f_equal. lia.
    + rewrite IH. destruct (ps !! j); simpl; [|reflexivity].
      f_equal. f_equal. lia.
Qed.


Lemma requiredAfterOptional_cons (p : Value) (ps : list Value) :
  requiredAfterOptional (p :: ps) <->
  (Value_Required p = false /\
   exists q, head ps = Some q /\ Value_Required q = true)
  \/ requiredAfterOptional ps.
Proof.
  split.
  - intros (i & a & b & Ha & Hb & Hra & Hrb). destruct i as [|i].
    + left. simpl in Ha. injection Ha as <-. split; [exact Hra|].
      exists b. split; [|exact Hrb]. destruct ps; simpl in *; congruence.
    + right. exists i, a, b. auto.
  - intros [(Hp & q & Hq & Hr) | (i & a & b & Ha & Hb & Hra & Hrb)].
    + exists 0%nat, p, q. repeat split; auto.
      destruct ps; simpl in *; congruence.
    + exists (S i), a, b. auto.
Qed.

(** The scan either fails on the first required positional that follows an
    optional one, or assigns the positions. *)
Lemma scanPositional_spec (ps : list Value) (last : bool) (i : Z) :
  let bad := (last = false /\
              exists q, head ps = Some q /\ Value_Required q = true)
             \/ requiredAfterOptional ps in
  (bad /\ exists name, scanPositional last i ps
                       = Err (ErrRequiredAfterOptional name))
  \/ (~ bad /\ scanPositional last i ps = Ok (assignPositions i ps)).
Proof.
  revert last i. induction ps as [|p ps IH]; intros last i bad; subst bad.
  - right. split; [|reflexivity].
    intros [(_ & q & Hq & _) | (j & a & b & Ha & _)]; discriminate.
  - simpl scanPositional.
    destruct (negb last && Value_Required p) eqn:Hc.
    + left. apply andb_true_iff in Hc as [Hl Hp].
      apply negb_true_iff in Hl. split; [|eauto].
      left. split; [exact Hl|]. exists p. auto.
    + destruct (IH (Value_Required p) (i + 1)) as [[Hbad [n Hn]]|[Hok Hs]].
      * left. rewrite Hn. simpl. split; [|eauto].
        right. apply requiredAfterOptional_cons. destruct Hbad; auto.
      * right. rewrite Hs. simpl. split; [|reflexivity].
        intros [(Hl & q & Hq & Hr) | Hr].
        -- simpl in Hq. injection Hq as <-. rewrite Hl, Hr in Hc.
           discriminate.
        -- apply requiredAfterOptional_cons in Hr. tauto.
Qed.


(** ** Fuel *)

(** The builders never run out of fuel on a schema whose nesting depth is
    below the fuel, and more fuel does not change an outcome. *)

Lemma depthV_struct n h fs : depthV (VStruct n h fs) = S (depthFields fs).
Proof.
  cbn [depthV]. f_equal. induction fs as [|[f x] fs IH]; [reflexivity|].
  cbn [depthFields fold_right snd]. fold (depthFields fs). rewrite <- IH.
  reflexivity.
Qed.

Lemma depthV_plugins es : depthV (VPlugins es) = S (depthElems es).
Proof.
  reflexivity.
Qed.

Lemma depth_zero : forall t, (depthV (zero t) <= depthT t)%nat.
Proof.
  fix IH 1. intros [n h fs | e | | | | | | nm]; simpl; try lia.
  apply le_n_S. induction fs as [|[f ft] fs IHfs]; simpl; [lia|].
  specialize (IH ft). lia.
Qed.



Section FlattenFuel.

Variables rec rec' : reflectValue -> result (rvalue * list flattenedField).

Hypothesis rec_stable : forall y, rec y <> OutOfFuel -> rec' y = rec y.





End FlattenFuel.

Lemma depthR_Indirect x : (depthR (Indirect x) <= depthR x)%nat.
Proof.
  destruct x as [|f [n h fs|e [t|]| | | | | |]]; simpl; lia.
Qed.

Lemma depthFields_cons ft x rest :
  depthFields ((ft, x) :: rest) = Nat.max (depthV x) (depthFields rest).
Proof. reflexivity. Qed.

Lemma depthElems_cons e rest :
  depthElems (e :: rest) = Nat.max (depthElem e) (depthElems rest).
Proof. reflexivity. Qed.

Section FlattenEnough.

Variable rec : reflectValue -> result (rvalue * list flattenedField).
Variable d : nat.

Hypothesis rec_finished : forall y, (depthR y < d)%nat -> rec y <> OutOfFuel.






End FlattenEnough.

(** The entries of a flattening: every value can be set and lies deeper
    in the schema than the value that was flattened. *)

Lemma entryBelow_mono d d' e :
  (d <= d')%nat -> entryBelow d e -> entryBelow d' e.
Proof. intros Hd [Hc He]. split; [exact Hc | lia]. Qed.

Lemma Forall_entryBelow_mono d d' out :
  (d <= d')%nat -> Forall (entryBelow d) out -> Forall (entryBelow d') out.
Proof.
  intros Hd Hf. eapply Forall_impl; [exact Hf|].
  intros e. now apply entryBelow_mono.
Qed.

Lemma Forall_entryBelow_compose d tag sub :
  Forall (entryBelow d) sub -> Forall (entryBelow d) (map (composeTag tag) sub).
Proof.
  induction 1 as [|e sub He _ IH]; simpl; constructor; auto.
Qed.

Section FlattenEntries.

Variable rec : reflectValue -> result (rvalue * list flattenedField).

Hypothesis rec_entries :
forall y y' out, rec y = Ok (y', out) -> Forall (entryBelow (depthR y)) out.

Lemma flattenElem_entries fl p p' out :
flattenElem rec fl p = Ok (p', out) ->
Forall (entryBelow (depthElem p)) out.
Proof.
unfold flattenElem. destruct p as [c|]; intros Hb;
  apply bind_Ok_inv in Hb as ([y fields] & Hr & [= _ <-]);
  apply rec_entries in Hr; exact Hr.
Qed.

Lemma flattenPlugins_entries fl elems elems' out :
flattenPlugins rec fl elems = Ok (elems', out) ->
Forall (entryBelow (depthElems elems)) out.
Proof.
revert elems' out. induction elems as [|e rest IH]; intros elems' out.
- intros [= _ <-]. constructor.
- cbn [flattenPlugins]. intros Hb.
  apply bind_Ok_inv in Hb as ([e' fields] & He & Hb).
  apply bind_Ok_inv in Hb as ([rest' out'] & Hr & [= _ <-]).
  rewrite depthElems_cons. apply Forall_app. split.
  + apply flattenElem_entries in He.
    eapply Forall_entryBelow_mono; [|exact He]. lia.
  + apply IH in Hr. eapply Forall_entryBelow_mono; [|exact Hr]. lia.
Qed.

Lemma hydrate_depth tag fl x fl' c wrap :
hydrate tag fl x = Ok (fl', c, wrap) -> (depthV c <= depthV x)%nat.
Proof.
unfold hydrate.
destruct x as [n h fs|e t| | | | | |]; try (intros [= _ <- _]; lia).
destruct (Tag_Cmd tag || Tag_Embed tag); [|intros [= _ <- _]; lia].
destruct (CanSet _); [|discriminate]. intros [= _ <- _].
pose proof (depth_zero e). simpl. lia.
Qed.

Lemma flattenField_entries f ft x x' out :
flattenField rec f ft x = Ok (x', out) ->
Forall (entryBelow (S (depthV x))) out.
Proof.
unfold flattenField.
destruct (parseTag ft) as [tag|]; [|discriminate].
destruct (Tag_Ignored tag); [intros [= _ <-]; constructor|].
intros Hb. apply bind_Ok_inv in Hb as ([[fl c] wrap] & Hh & Hb).
apply hydrate_depth in Hh.
destruct (negb (Field_Anonymous ft) && negb (Tag_Embed tag)).
- destruct (CanSet (Val fl c)) eqn:Hset; injection Hb as _ <-;
    constructor; [|constructor].
  split; [exact Hset | simpl; lia].
- destruct c as [n h fs|e t|p|es| | | |];
    try (apply bind_Ok_inv in Hb as ([c' sub] & Hr & [= _ <-]);
         apply rec_entries in Hr; apply Forall_entryBelow_compose;
         eapply Forall_entryBelow_mono; [|exact Hr]; simpl in *; lia).
  + apply bind_Ok_inv in Hb as ([p' sub] & Hr & [= _ <-]).
    apply flattenElem_entries in Hr. apply Forall_entryBelow_compose.
    eapply Forall_entryBelow_mono; [|exact Hr].
    unfold depthElem. simpl in *. lia.
  + apply bind_Ok_inv in Hb as ([es' sub] & Hr & [= _ <-]).
    apply flattenPlugins_entries in Hr.
    eapply Forall_entryBelow_mono; [|exact Hr].
    rewrite depthV_plugins in Hh. lia.
Qed.

Lemma flattenLoop_entries f fields fields' out :
flattenLoop rec f fields = Ok (fields', out) ->
Forall (entryBelow (S (depthFields fields))) out.
Proof.
revert fields' out.
induction fields as [|[ft x] rest IH]; intros fields' out.
- intros [= _ <-]. constructor.
- cbn [flattenLoop]. intros Hb.
  apply bind_Ok_inv in Hb as ([x' out1] & Hf & Hb).
  apply bind_Ok_inv in Hb as ([rest' out2] & Hr & [= _ <-]).
  rewrite depthFields_cons. apply Forall_app. split.
  + apply flattenField_entries in Hf.
    eapply Forall_entryBelow_mono; [|exact Hf]. lia.
  + apply IH in Hr. eapply Forall_entryBelow_mono; [|exact Hr]. lia.
Qed.

End FlattenEntries.

Lemma flattenedFields_entries fuel :
  forall x x' out,
    flattenedFields fuel x = Ok (x', out) ->
    Forall (entryBelow (depthR x)) out.
Proof.
  induction fuel as [|fuel IH]; intros x x' out; [discriminate|].
  cbn [flattenedFields]. pose proof (depthR_Indirect x) as Hi.
  destruct (Indirect x) as [|f [n h fields| | | | | | |]]; try discriminate.
  intros Hb. apply bind_Ok_inv in Hb as ([fields' out'] & Hl & [= _ <-]).
  apply (flattenLoop_entries _ IH) in Hl.
  eapply Forall_entryBelow_mono; [|exact Hl].
  change (depthR (Val f (VStruct n h fields)))
    with (depthV (VStruct n h fields)) in Hi.
  rewrite depthV_struct in Hi. exact Hi.
Qed.
(** ** What a successful call of each builder did *)

Section Builders.

Context `{Naming}.

Lemma buildField_inv k node v ft fv tag name seen node' seen' :
  buildField k node v ft fv tag name seen = Ok (node', seen') ->
  (Tag_Arg tag = true /\ seen' = seen /\
   exists value,
     node' = set_Node_Positional node (Node_Positional node ++ [value]) /\
     Value_Name value = name /\ Value_Help value = Tag_Help tag /\
     Value_Required value = requiredOf tag)
  \/
  (Tag_Arg tag = false /\
   exists flag,
     node' = set_Node_Flags node (Node_Flags node ++ [flag]) /\
     Flag_Name flag = name /\ Flag_Short flag = Tag_Short tag /\
     Value_Required (Flag_Value flag) = requiredOf tag /\
     NoDup (flagKeys flag) /\
     (forall key, key ∈ flagKeys flag -> key ∉ seen) /\
     seen' = list_to_set (flagKeys flag) ∪ seen).
Proof.
  unfold buildField.
  destruct (registry_ForNamedValue k (Tag_Type tag) fv) as [mapper|];
    [|discriminate].
  destruct fv as [|fl c]; [discriminate|].
  destruct (Tag_Arg tag) eqn:Harg.
  - intros [= <- <-]. left. repeat split; eauto 10.
  - simpl Value_Name. case_bool_decide as Hlong; [discriminate|].
    destruct (Tag_Short tag =? 0) eqn:Hs; simpl.
    + intros [= <- <-]. right. split; [reflexivity|].
      eexists. split; [reflexivity|]. unfold flagKeys, Flag_Name. simpl.
      rewrite Hs. repeat split; auto.
      * apply NoDup_singleton.
      * intros key Hk. apply list_elem_of_singleton in Hk. now subst.
      * set_solver.
    + case_bool_decide as Hshort; [discriminate|]. simpl.
      intros [= <- <-]. right. split; [reflexivity|].
      eexists. split; [reflexivity|]. unfold flagKeys, Flag_Name. simpl.
      rewrite Hs. repeat split; auto.
      * apply NoDup_cons. split; [|apply NoDup_singleton].
        intros Hin. apply list_elem_of_singleton in Hin. set_solver.
      * intros key Hk. set_solver.
      * set_solver.
Qed.


Lemma branchChild_inv node dchild tag name node1 child :
  branchChild node dchild tag name = Ok (node1, child) ->
  (Tag_Arg tag = true /\ node1 = node /\
   exists p ps, Node_Positional dchild = p :: ps /\ Value_Name p = name /\
                child = promoted dchild p ps)
  \/
  (Tag_Arg tag = false /\ child = dchild /\
   ((Tag_Default tag = "" /\ node1 = node) \/
    (Tag_Default tag <> "" /\ Node_DefaultCmd node = None /\
     node1 = set_Node_DefaultCmd node (Some dchild) /\
     (Tag_Default tag = "withargs" \/
      (Node_Children dchild = [] /\ Node_Positional dchild = []))))).
Proof.
  unfold branchChild. destruct (Tag_Arg tag).
  - destruct (Node_Positional dchild) as [|p ps] eqn:Hp; [discriminate|].
    destruct (String.eqb (Value_Name p) name) eqn:Hn; [|discriminate].
    simpl. intros [= <- <-]. left. apply String.eqb_eq in Hn.
    split; [reflexivity|]. split; [reflexivity|]. exists p, ps. auto.
  - destruct (String.eqb (Tag_Default tag) "") eqn:Hd; simpl.
    + intros [= <- <-]. apply String.eqb_eq in Hd. right. auto 10.
    + apply String.eqb_neq in Hd.
      destruct (Node_DefaultCmd node) eqn:Hdc; [discriminate|].
      destruct (String.eqb (Tag_Default tag) "withargs") eqn:Hw; simpl.
      * intros [= <- <-]. apply String.eqb_eq in Hw. right. auto 10.
      * destruct (Node_Children dchild), (Node_Positional dchild);
          simpl; try discriminate.
        intros [= <- <-]. right. auto 10.
Qed.

Lemma promoted_proj dchild p ps :
  Node_Children (promoted dchild p ps) = Node_Children dchild /\
  Node_Flags (promoted dchild p ps) = Node_Flags dchild /\
  Node_Type (promoted dchild p ps) = Node_Type dchild /\
  Node_Tag (promoted dchild p ps) = Node_Tag dchild /\
  Node_DefaultCmd (promoted dchild p ps) = Node_DefaultCmd dchild /\
  Node_Positional (promoted dchild p ps) = ps /\
  Node_Argument (promoted dchild p ps) = Some p.
Proof.
  unfold promoted.
  destruct (String.eqb _ _); simpl; auto 10.
Qed.

Lemma dressChild_proj k child fv tag name :
  Node_Children (dressChild k child fv tag name) = Node_Children child /\
  Node_Flags (dressChild k child fv tag name) = Node_Flags child /\
  Node_Type (dressChild k child fv tag name) = Node_Type child /\
  Node_Tag (dressChild k child fv tag name) = tag /\
  Node_DefaultCmd (dressChild k child fv tag name)
    = Node_DefaultCmd child /\
  Node_Positional (dressChild k child fv tag name)
    = Node_Positional child /\
  Node_Argument (dressChild k child fv tag name) = Node_Argument child /\
  Node_Help (dressChild k child fv tag name) = Tag_Help tag /\
  Node_Name (dressChild k child fv tag name) = name.
Proof.
  unfold dressChild. destruct (helpProvider fv); simpl; auto 10.
Qed.

Lemma buildChild_inv rec k node typ v ft fv tag name seen node' seen' :
  buildChild rec k node typ v ft fv tag name seen = Ok (node', seen') ->
  exists child0 node1 child,
    rec k fv typ seen = Ok (child0, seen') /\
    CanSet fv = true /\
    branchChild node (dressChild k child0 fv tag name) tag name
      = Ok (node1, child) /\
    node' = set_Node_Children node1 (Node_Children node1 ++ [child]) /\
    nonEmpty (Node_Positional child) && nonEmpty (Node_Children child)
      = false.
Proof.
  unfold buildChild. intros Hb.
  apply bind_Ok_inv in Hb as ([child0 seen1] & Hrec & Hb).
  destruct (CanSet fv) eqn:Hset; simpl in Hb; [|discriminate].
  apply bind_Ok_inv in Hb as ([node1 child] & Hbr & Hb).
  destruct (nonEmpty (Node_Positional child)
            && nonEmpty (Node_Children child)) eqn:Hmix; [discriminate|].
  injection Hb as <- <-. exists child0, node1, child. auto.
Qed.

Lemma buildEntry_cases rec k v node seen field node' seen' :
  buildEntry rec k v node seen field = Ok (node', seen') ->
  (node' = node /\ seen' = seen)
  \/ (exists tag name,
        name = fieldName (ff_field field) (ff_tag field) /\
        tag = set_Tag_Env (ff_tag field)
                (Tag_EnvPrefix (ff_tag field) +:+ Tag_Env (ff_tag field)) /\
        buildField k node v (ff_field field) (ff_value field) tag name seen
        = Ok (node', seen'))
  \/ (exists tag name,
        name = fieldName (ff_field field) (ff_tag field) /\
        tag = set_Tag_Env (ff_tag field)
                (Tag_EnvPrefix (ff_tag field) +:+ Tag_Env (ff_tag field)) /\
        buildChild rec k node
          (if Tag_Arg tag then ArgumentNode else CommandNode)
          v (ff_field field) (ff_value field) tag name seen
        = Ok (node', seen')).
Proof.
  unfold buildEntry.
  destruct (existsb _ (ignoreFields k)).
  - intros [= <- <-]. auto.
  - destruct (_ && _ && _); intros Hb; [right; right | right; left];
      eexists _, _; (split; [reflexivity|]); (split; [reflexivity|]);
      exact Hb.
Qed.

Lemma buildEntries_invariant rec k v (I : Node -> gset string -> Prop) :
  (forall node seen field node' seen',
      I node seen ->
      buildEntry rec k v node seen field = Ok (node', seen') ->
      I node' seen') ->
  forall fields node seen node' seen',
    I node seen ->
    buildEntries rec k v fields node seen = Ok (node', seen') ->
    I node' seen'.
Proof.
  intros Hstep fields.
  induction fields as [|field rest IH]; intros node seen node' seen' HI.
  - intros [= <- <-]. exact HI.
  - simpl. intros Hb.
    apply bind_Ok_inv in Hb as ([node1 seen1] & Hone & Hrest).
    eapply IH; [|exact Hrest]. eapply Hstep; eauto.
Qed.

Lemma buildNode_inv fuel k v typ seen node seen' :
  buildNode fuel k v typ seen = Ok (node, seen') ->
  exists fuel' v' fields node1 seen1 ps,
    fuel = S fuel' /\
    flattenedFields fuel v = Ok (v', fields) /\
    buildEntries (buildNode fuel') k v fields (newNode typ v) seen
      = Ok (node1, seen1) /\
    scanPositional true 0 (Node_Positional node1) = Ok ps /\
    node = set_Node_Positional node1 ps /\
    seen' = unsee (Node_Flags node1) seen1.
Proof.
  destruct fuel as [|fuel']; [discriminate|].
  cbn [buildNode]. intros Hb.
  apply bind_Ok_inv in Hb as ([v' fields] & Hf & Hb).
  apply bind_Ok_inv in Hb as ([node1 seen1] & He & Hb).
  apply bind_Ok_inv in Hb as (ps & Hs & Hb).
  injection Hb as <- <-.
  exists fuel', v', fields, node1, seen1, ps. auto 10.
Qed.

Lemma branchChild_parent node dchild tag name node1 child :
  branchChild node dchild tag name = Ok (node1, child) ->
  Node_Children node1 = Node_Children node /\
  Node_Flags node1 = Node_Flags node /\
  Node_Positional node1 = Node_Positional node /\
  Node_Type node1 = Node_Type node.
Proof.
  intros Hb. apply branchChild_inv in Hb
    as [(_ & -> & _) | (_ & _ & [(_ & ->) | (_ & _ & -> & _)])];
    simpl; auto.
Qed.

Lemma branchChild_child node dchild tag name node1 child :
  branchChild node dchild tag name = Ok (node1, child) ->
  Node_Children child = Node_Children dchild /\
  Node_Flags child = Node_Flags dchild /\
  Node_Type child = Node_Type dchild /\
  Node_Tag child = Node_Tag dchild /\
  Node_DefaultCmd child = Node_DefaultCmd dchild.
Proof.
  intros Hb. apply branchChild_inv in Hb
    as [(_ & _ & p & ps & _ & _ & ->) | (_ & -> & _)].
  - pose proof (promoted_proj dchild p ps). tauto.
  - auto.
Qed.

(** The loop leaves the kind of the node alone. *)
Lemma buildEntries_type rec k v fields node seen node' seen' :
  buildEntries rec k v fields node seen = Ok (node', seen') ->
  Node_Type node' = Node_Type node.
Proof.
  intros Hb.
  apply (buildEntries_invariant rec k v
           (fun n _ => Node_Type n = Node_Type node)) in Hb; auto.
  clear. intros n seen field n' seen' Hn Hb.
  apply buildEntry_cases in Hb
    as [[-> _] | [(tag & name & _ & _ & Hb) | (tag & name & _ & _ & Hb)]];
    [exact Hn| |].
  - apply buildField_inv in Hb
      as [(_ & _ & value & -> & _) | (_ & flag & -> & _)]; exact Hn.
  - apply buildChild_inv in Hb as (c0 & n1 & c & _ & _ & Hbr & -> & _).
    apply branchChild_parent in Hbr as (_ & _ & _ & Ht). simpl. congruence.
Qed.

Lemma buildNode_type fuel k v typ seen node seen' :
  buildNode fuel k v typ seen = Ok (node, seen') -> Node_Type node = typ.
Proof.
  intros Hb. apply buildNode_inv in Hb
    as (fuel' & v' & fields & node1 & seen1 & ps & _ & _ & He & _ & -> & _).
  apply buildEntries_type in He. exact He.
Qed.

(** A built node has its positionals numbered from zero. *)
Lemma buildNode_positions fuel k v typ seen node seen' :
  buildNode fuel k v typ seen = Ok (node, seen') ->
  exists ps, Node_Positional node = assignPositions 0 ps.
Proof.
  intros Hb. apply buildNode_inv in Hb
    as (fuel' & v' & fields & node1 & seen1 & ps & _ & _ & _ & Hs & -> & _).
  destruct (scanPositional_spec (Node_Positional node1) true 0)
    as [(_ & n & Hn) | (_ & Hok)]; [congruence|].
  exists (Node_Positional node1). simpl. congruence.
Qed.

Lemma subnodes_unfold (n : Node) :
  subnodes n = n :: descendants n.
Proof. destruct n; reflexivity. Qed.

Section Descendants.

(** A property every child has when [buildChild] attaches it holds of
    every node below a built node. *)
Variable P : Node -> Prop.

Hypothesis P_child :
  forall fuel k fv seen seen' child0 node node1 child tag name,
    buildNode fuel k fv (if Tag_Arg tag then ArgumentNode else CommandNode)
              seen = Ok (child0, seen') ->
    branchChild node (dressChild k child0 fv tag name) tag name
      = Ok (node1, child) ->
    nonEmpty (Node_Positional child) && nonEmpty (Node_Children child)
      = false ->
    P child.

Lemma buildNode_descendants fuel :
  forall k v typ seen node seen',
    buildNode fuel k v typ seen = Ok (node, seen') ->
    Forall P (descendants node).
Proof.
  induction fuel as [|fuel IH]; intros k v typ seen node seen' Hb;
    [discriminate|].
  apply buildNode_inv in Hb
    as (fuel' & v' & fields & node1 & seen1 & ps & [= <-] & _ & He & _
        & -> & _).
  change (Forall P (descendants node1)).
  apply (buildEntries_invariant (buildNode fuel) k v
           (fun n _ => Forall P (descendants n))) in He;
    [exact He| |constructor].
  intros n s field n' s' Hn Hb.
    apply buildEntry_cases in Hb
      as [[-> _] | [(tag & name & _ & _ & Hb) | (tag & name & _ & _ & Hb)]];
  [exact Hn| |].
  - apply buildField_inv in Hb
      as [(_ & _ & value & -> & _) | (_ & flag & -> & _)]; exact Hn.
  - apply buildChild_inv in Hb
      as (c0 & n1 & c & Hrec & _ & Hbr & -> & Hmix).
    pose proof (branchChild_parent _ _ _ _ _ _ Hbr) as (Hch & _).
    pose proof (branchChild_child _ _ _ _ _ _ Hbr) as (Hcc & _).
    pose proof (dressChild_proj k c0 (ff_value field) tag name)
      as (Hdc & _).
    unfold descendants in *. simpl. rewrite Hch.
    rewrite flat_map_app. apply Forall_app. split; [exact Hn|].
    simpl. rewrite app_nil_r, subnodes_unfold. constructor.
    + eapply P_child; eauto.
    + unfold descendants. rewrite Hcc, Hdc. eapply IH. exact Hrec.
Qed.

End Descendants.

Lemma build_inv fuel k ast app :
  build fuel k ast = Ok app ->
  exists node seen',
    rKind (ValueOf ast) = Ptr /\
    rKind (Indirect (ValueOf ast)) = Struct /\
    buildNode fuel k (Indirect (ValueOf ast)) ApplicationNode
              (seedFlags (extraFlags k)) = Ok (node, seen') /\
    nonEmpty (Node_Positional node) && nonEmpty (Node_Children node)
      = false /\
    Application_Node app
    = set_Node_Tag (set_Node_Flags node (extraFlags k ++ Node_Flags node))
                   (set_Tag_Vars newEmptyTag (vars k)).
Proof.
  unfold build.
  destruct (Kind_eqb (rKind (ValueOf ast)) Ptr) eqn:Hp; [|discriminate].
  destruct (Kind_eqb (rKind (Indirect (ValueOf ast))) Struct) eqn:Hs;
    [|discriminate].
  simpl. intros Hb.
  apply bind_Ok_inv in Hb as ([node seen'] & Hn & Hb).
  destruct (nonEmpty (Node_Positional node)
            && nonEmpty (Node_Children node)) eqn:Hmix; [discriminate|].
  injection Hb as <-. exists node, seen'. simpl.
  repeat split; auto.
  - destruct (rKind (ValueOf ast)); simpl in Hp; congruence.
  - destruct (rKind (Indirect (ValueOf ast))); simpl in Hs; congruence.
Qed.


Lemma argumentPositions_child :
  forall fuel k fv seen seen' child0 node node1 child tag name,
    buildNode fuel k fv (if Tag_Arg tag then ArgumentNode else CommandNode)
              seen = Ok (child0, seen') ->
    branchChild node (dressChild k child0 fv tag name) tag name
      = Ok (node1, child) ->
    nonEmpty (Node_Positional child) && nonEmpty (Node_Children child)
      = false ->
    argumentPositions child.
Proof.
  intros fuel k fv seen seen' child0 node node1 child tag name Hb Hbr _ Ht.
  pose proof (buildNode_type _ _ _ _ _ _ _ Hb) as Htyp.
  pose proof (buildNode_positions _ _ _ _ _ _ _ Hb) as (qs & Hqs).
  pose proof (dressChild_proj k child0 fv tag name)
    as (_ & _ & Hdt & _ & _ & Hdp & _).
  pose proof (branchChild_child _ _ _ _ _ _ Hbr) as (_ & _ & Hct & _).
  apply branchChild_inv in Hbr
    as [(_ & _ & p & ps & Hp & _ & ->) | (Harg & _)].
  - pose proof (promoted_proj (dressChild k child0 fv tag name) p ps)
      as (_ & _ & _ & _ & _ & Hpp & Hpa).
    rewrite Hdp, Hqs in Hp. destruct qs as [|q qs]; [discriminate|].
    simpl in Hp. injection Hp as <- <-.
    exists (set_Value_Position q 0). split; [exact Hpa|].
    split; [reflexivity|]. intros i x Hx. rewrite Hpp in Hx.
    rewrite assignPositions_lookup in Hx.
    destruct (qs !! i); simpl in Hx; [|discriminate].
    injection Hx as <-. simpl. lia.
  - rewrite Harg in Htyp. congruence.
Qed.





(** A property of the children and the default command of a node that
    holds of every built node and of every attached child holds all over
    a compiled tree. *)
Lemma build_subnodes (P : Node -> Prop) fuel k ast app :
  (forall fuel k fv seen seen' child0 node node1 child tag name,
      buildNode fuel k fv (if Tag_Arg tag then ArgumentNode else CommandNode)
                seen = Ok (child0, seen') ->
      branchChild node (dressChild k child0 fv tag name) tag name
        = Ok (node1, child) ->
      nonEmpty (Node_Positional child) && nonEmpty (Node_Children child)
        = false ->
      P child) ->
  (forall node seen',
      buildNode fuel k (Indirect (ValueOf ast)) ApplicationNode
                (seedFlags (extraFlags k)) = Ok (node, seen') ->
      nonEmpty (Node_Positional node) && nonEmpty (Node_Children node)
        = false ->
      P (set_Node_Tag (set_Node_Flags node (extraFlags k ++ Node_Flags node))
                      (set_Tag_Vars newEmptyTag (vars k)))) ->
  build fuel k ast = Ok app ->
  Forall P (subnodes (Application_Node app)).
Proof.
  intros Hchild Hroot Hb.
  apply build_inv in Hb as (node & seen' & _ & _ & Hn & Hmix & ->).
  rewrite subnodes_unfold. constructor; [eauto|].
  exact (buildNode_descendants P Hchild _ _ _ _ _ _ _ Hn).
Qed.
(** ** Scoping of flag names *)












Lemma string_append_assoc (a b c : string) :
  (a +:+ b) +:+ c = a +:+ (b +:+ c).
Proof.
  induction a as [|x a IH]; [reflexivity|].
  change (String x ((a +:+ b) +:+ c) = String x (a +:+ (b +:+ c))).
  f_equal. exact IH.
Qed.



(** ** Fuel of the node builder *)





Section LoopFuel.

Variables rec rec' : Kong -> reflectValue -> NodeType -> gset string ->
                   result (Node * gset string).




End LoopFuel.



(** Every entry the node builder works on can be set. *)
Lemma flattenedFields_CanSet fuel x x' out field :
  flattenedFields fuel x = Ok (x', out) -> field ∈ out ->
  CanSet (ff_value field) = true.
Proof.
  intros Hf Hin. apply flattenedFields_entries in Hf.
  rewrite Forall_forall in Hf. exact (proj1 (Hf field Hin)).
Qed.


(** ** The loop of the node builder, entry by entry *)

Lemma buildEntry_step rec k v node seen field :
  buildEntry rec k v node seen field
  = if excluded k v field then Ok (node, seen)
    else
      let tag := set_Tag_Env (ff_tag field) (entryEnv field) in
      if isBranch k field then
        buildChild rec k node
          (if Tag_Arg (ff_tag field) then ArgumentNode else CommandNode)
          v (ff_field field) (ff_value field) tag (entryName field) seen
      else
        buildField k node v (ff_field field) (ff_value field) tag
                   (entryName field) seen.
Proof. reflexivity. Qed.

Lemma buildField_flag k node v ft fv tag name seen node' seen' :
  buildField k node v ft fv tag name seen = Ok (node', seen') ->
  Tag_Arg tag = false ->
  exists flag,
    node' = set_Node_Flags node (Node_Flags node ++ [flag]) /\
    Flag_Name flag = name /\ Flag_Env flag = Tag_Env tag /\
    Flag_Short flag = Tag_Short tag /\ Flag_Hidden flag = Tag_Hidden tag /\
    Flag_Group flag = buildGroupForKey k (Tag_Group tag) /\
    Value_Tag (Flag_Value flag) = tag /\
    Value_Target (Flag_Value flag) = fv.
Proof.
  unfold buildField. intros Hb Harg. rewrite Harg in Hb.
  destruct (registry_ForNamedValue k (Tag_Type tag) fv) as [mapper|];
    [|discriminate].
  destruct fv as [|fl c]; [discriminate|].
  simpl Value_Name in Hb. case_bool_decide; [discriminate|].
  apply bind_Ok_inv in Hb as (s & _ & [= <- <-]).
  eexists. split; [reflexivity|]. unfold Flag_Name. simpl. auto 10.
Qed.

Lemma entries_cons (k : Kong) (v : reflectValue) (field : flattenedField)
    (rest : list flattenedField) :
  branchEntries k v (field :: rest)
    = branchEntries k v [field] ++ branchEntries k v rest /\
  flagEntries k v (field :: rest)
    = flagEntries k v [field] ++ flagEntries k v rest /\
  positionalEntries k v (field :: rest)
    = positionalEntries k v [field] ++ positionalEntries k v rest.
Proof.
  unfold branchEntries, flagEntries, positionalEntries.
  cbn [List.filter].
  repeat split;
    match goal with |- context [if ?c then _ else _] => destruct c end;
    reflexivity.
Qed.

Lemma buildEntry_order rec k v node seen field node' seen' :
  buildEntry rec k v node seen field = Ok (node', seen') ->
  map Node_Name (Node_Children node')
    = map Node_Name (Node_Children node)
      ++ map entryName (branchEntries k v [field]) /\
  map Flag_Name (Node_Flags node')
    = map Flag_Name (Node_Flags node)
      ++ map entryName (flagEntries k v [field]) /\
  map Flag_Env (Node_Flags node')
    = map Flag_Env (Node_Flags node)
      ++ map entryEnv (flagEntries k v [field]) /\
  map Flag_Short (Node_Flags node')
    = map Flag_Short (Node_Flags node)
      ++ map (fun e => Tag_Short (ff_tag e)) (flagEntries k v [field]) /\
  map Value_Name (Node_Positional node')
    = map Value_Name (Node_Positional node)
      ++ map entryName (positionalEntries k v [field]).
Proof.
  rewrite buildEntry_step.
  unfold branchEntries, flagEntries, positionalEntries. cbn [List.filter].
  destruct (excluded k v field) eqn:Hex; cbn [negb andb].
  { intros [= <- <-]. cbn [map]. rewrite !app_nil_r. auto. }
  cbv zeta. destruct (isBranch k field) eqn:Hbr; cbn [negb andb].
  - intros Hb.
    apply buildChild_inv in Hb as (c0 & n1 & c & _ & _ & Hbc & -> & _).
    pose proof (branchChild_parent _ _ _ _ _ _ Hbc) as (Hc & Hf & Hp & _).
    assert (Hname : Node_Name c = entryName field).
    { apply branchChild_inv in Hbc
        as [(_ & _ & p & ps & _ & _ & ->) | (_ & -> & _)].
      - unfold promoted. destruct (String.eqb _ _); simpl;
          apply dressChild_proj.
      - apply dressChild_proj. }
    cbn [map Node_Children Node_Flags Node_Positional set_Node_Children].
    rewrite !app_nil_r, map_app, Hc, Hf, Hp. cbn [map]. rewrite Hname.
    auto.
  - intros Hb. destruct (Tag_Arg (ff_tag field)) eqn:Harg; cbn [negb].
    + apply buildField_inv in Hb
        as [(_ & _ & value & -> & Hn & _) | (Hcontra & _)];
        [|simpl in Hcontra; congruence].
      cbn [map Node_Children Node_Flags Node_Positional
           set_Node_Positional].
      rewrite !app_nil_r, map_app. cbn [map]. rewrite Hn. auto.
    + apply buildField_flag in Hb
        as (flag & -> & Hn & He & Hs & _); [|exact Harg].
      cbn [map Node_Children Node_Flags Node_Positional set_Node_Flags].
      rewrite !app_nil_r, !map_app. cbn [map]. rewrite Hn, He, Hs.
      auto.
Qed.

Lemma buildEntries_order rec k v fields node seen node' seen' :
  buildEntries rec k v fields node seen = Ok (node', seen') ->
  map Node_Name (Node_Children node')
    = map Node_Name (Node_Children node)
      ++ map entryName (branchEntries k v fields) /\
  map Flag_Name (Node_Flags node')
    = map Flag_Name (Node_Flags node)
      ++ map entryName (flagEntries k v fields) /\
  map Flag_Env (Node_Flags node')
    = map Flag_Env (Node_Flags node)
      ++ map entryEnv (flagEntries k v fields) /\
  map Flag_Short (Node_Flags node')
    = map Flag_Short (Node_Flags node)
      ++ map (fun e => Tag_Short (ff_tag e)) (flagEntries k v fields) /\
  map Value_Name (Node_Positional node')
    = map Value_Name (Node_Positional node)
      ++ map entryName (positionalEntries k v fields).
Proof.
  revert node seen. induction fields as [|field rest IH]; intros node seen.
  - intros [= <- <-]. cbn. rewrite !app_nil_r. auto.
  - cbn [buildEntries]. intros Hb.
    apply bind_Ok_inv in Hb as ([n1 s1] & Hone & Hrest).
    apply buildEntry_order in Hone as (H1 & H2 & H3 & H4 & H5).
    apply IH in Hrest as (R1 & R2 & R3 & R4 & R5).
    destruct (entries_cons k v field rest) as (-> & -> & ->).
    rewrite R1, R2, R3, R4, R5, H1, H2, H3, H4, H5.
    rewrite !map_app, <- !app_assoc. auto.
Qed.

Lemma assignPositions_names (ps : list Value) (i : Z) :
  map Value_Name (assignPositions i ps) = map Value_Name ps.
Proof.
  revert i. induction ps as [|p ps IH]; intros i; [reflexivity|].
  cbn [assignPositions map]. rewrite IH. reflexivity.
Qed.

Lemma buildEntries_app rec k v before after node seen :
  buildEntries rec k v (before ++ after) node seen
  = ('(node1, seen1) ← buildEntries rec k v before node seen;
     buildEntries rec k v after node1 seen1).
Proof.
  revert node seen. induction before as [|field rest IH];
    intros node seen; [reflexivity|].
  cbn [app buildEntries].
  destruct (buildEntry rec k v node seen field) as [[n s]| | |];
    try reflexivity.
  cbn [mbind result_bind]. apply IH.
Qed.

(** ** The claims *)




(** C4. For a field built as a positional-argument branch, the branch
    builder fails when the built child has no positional value and when
    the first one is not named like the branch; when it succeeds the
    first positional has left the child's positional list for the
    child's branch-argument slot, and the child's help is the tag's help
    or, when that is empty, the help of the promoted argument. *)
Theorem C4_branch_argument_promotion
    rec k node typ v ft fv tag name seenFlags child0 seen1 :
  Tag_Arg tag = true ->
  rec k fv typ seenFlags = Ok (child0, seen1) ->
  CanSet fv = true ->
  (Node_Positional child0 = [] ->
   buildChild rec k node typ v ft fv tag name seenFlags
   = Err (ErrBranchNoPositional name))
  /\
  (forall p ps,
      Node_Positional child0 = p :: ps -> Value_Name p <> name ->
      buildChild rec k node typ v ft fv tag name seenFlags
      = Err (ErrBranchFirstName name))
  /\
  (forall node' seen',
      buildChild rec k node typ v ft fv tag name seenFlags
      = Ok (node', seen') ->
      exists p ps child,
        Node_Positional child0 = p :: ps /\ Value_Name p = name /\
        Node_Children node' = Node_Children node ++ [child] /\
        Node_Argument child = Some p /\
        Node_Positional child = ps /\
        Node_Help child = (if String.eqb (Tag_Help tag) ""
                           then Value_Help p else Tag_Help tag))
  /\
  (forall p ps,
      Node_Positional child0 = p :: ps -> Value_Name p = name ->
      ps = [] \/ Node_Children child0 = [] ->
      exists node',
        buildChild rec k node typ v ft fv tag name seenFlags
        = Ok (node', seen1)).
Proof.
  intros Ha Hrec Hset.
  pose proof (dressChild_proj k child0 fv tag name)
    as (Hdc & _ & _ & _ & _ & Hdp & _ & Hdh & Hdn).
  assert (Hrun : buildChild rec k node typ v ft fv tag name seenFlags
                 = '(node, child) ←
                     branchChild node (dressChild k child0 fv tag name)
                                 tag name;
                   let node := set_Node_Children node
                                 (Node_Children node ++ [child]) in
                   if nonEmpty (Node_Positional child)
                      && nonEmpty (Node_Children child)
                   then Err ErrMixChild else Ok (node, seen1)).
  { unfold buildChild. rewrite Hrec. simpl. rewrite Hset. reflexivity. }
  split; [|split; [|split]].
  - intros Hnil. rewrite Hrun. unfold branchChild.
    rewrite Ha, Hdp, Hnil. reflexivity.
  - intros p ps Hp Hne. rewrite Hrun. unfold branchChild.
    rewrite Ha, Hdp, Hp. apply String.eqb_neq in Hne. rewrite Hne.
    simpl. rewrite Hdn. reflexivity.
  - intros node' seen' Hb.
    apply buildChild_inv in Hb as (c0 & n1 & c & Hrec' & _ & Hbr & -> & _).
    rewrite Hrec in Hrec'. injection Hrec' as <- <-.
    pose proof (branchChild_parent _ _ _ _ _ _ Hbr) as (Hch & _).
    apply branchChild_inv in Hbr
      as [(_ & _ & p & ps & Hp & Hn & ->) | (Hf & _)]; [|congruence].
    exists p, ps, (promoted (dressChild k child0 fv tag name) p ps).
    rewrite Hdp in Hp.
    pose proof (promoted_proj (dressChild k child0 fv tag name) p ps)
      as (_ & _ & _ & _ & _ & Hpp & Hpa).
    simpl. rewrite Hch. repeat split; auto.
    unfold promoted. simpl. rewrite Hdh.
    destruct (String.eqb (Tag_Help tag) ""); simpl; [reflexivity|].
    exact Hdh.
  - intros p ps Hp Hn Hex. rewrite Hrun. unfold branchChild.
    rewrite Ha, Hdp, Hp. apply String.eqb_eq in Hn. rewrite Hn.
    cbn [negb].
    change (if String.eqb (Node_Help _) "" then _ else _)
      with (promoted (dressChild k child0 fv tag name) p ps).
    pose proof (promoted_proj (dressChild k child0 fv tag name) p ps)
      as (Hpc & _ & _ & _ & _ & Hpp & _).
    cbn [mbind result_bind]. rewrite Hpp, Hpc, Hdc.
    eexists. destruct Hex as [-> | ->]; [reflexivity|].
    rewrite andb_false_r. reflexivity.
Qed.

(** C5 (amended). For a field tagged command or embed whose storage is a
    pointer, the flattener allocates a fresh zero-valued structure and
    attaches it whether the reference is absent or present: the outcome
    for a present reference is the outcome for a nil one, the field is
    left pointing to the structure made from the zero value, and for a
    command field that structure is the zero value itself, which is also
    the value of the entry. *)
Theorem C5_hydration_replaces_reference rec f ft tag e target :
  parseTag ft = inl tag ->
  Tag_Ignored tag = false ->
  Tag_Cmd tag || Tag_Embed tag = true ->
  flattenField rec f ft (VPtr e target) = flattenField rec f ft (VPtr e None)
  /\
  (forall x' out,
      flattenField rec f ft (VPtr e target) = Ok (x', out) ->
      exists c, x' = VPtr e (Some c))
  /\
  (CanSet (Val (fieldFlag f ft) (VPtr e target)) = true ->
   Field_Anonymous ft = false -> Tag_Embed tag = false ->
   flattenField rec f ft (VPtr e target)
   = Ok (VPtr e (Some (zero e)),
         [mkFlattened ft (Val newFlag (zero e)) tag])).
Proof.
  intros Hp Hi Hce. unfold flattenField. rewrite Hp, Hi.
  unfold hydrate. rewrite Hce. split; [reflexivity|]. split.
  - intros x' out.
    destruct (CanSet (Val (fieldFlag f ft) (VPtr e target)));
      [|discriminate].
    cbn [mbind result_bind].
    destruct (negb (Field_Anonymous ft) && negb (Tag_Embed tag)).
    + intros [= <- _]. eauto.
    + destruct (zero e); intros Hb;
        apply bind_Ok_inv in Hb as ([y sub] & _ & [= <- _]); eauto.
  - intros Hset Ha He. rewrite Hset, Ha, He. reflexivity.
Qed.



(** C9 (amended). A field that is neither anonymous nor embed, that is
    not a command stored as a pointer, and whose slot cannot be set (an
    unexported field is one) is left out without an error: its turn of
    the loop leaves the value alone and appends nothing, and the
    flattened entries of the struct are those of the struct without it.
    Whatever its tag, no entry ever comes out of such a slot. *)
Theorem C9_unsettable_field_omitted rec f ft tag x :
  parseTag ft = inl tag ->
  Tag_Ignored tag = false ->
  Field_Anonymous ft = false ->
  Tag_Embed tag = false ->
  CanSet (Val (fieldFlag f ft) x) = false ->
  (Tag_Cmd tag = false \/ kindOf x <> Ptr ->
   flattenField rec f ft x = Ok (x, []) /\
   forall before after,
     entriesOf (flattenLoop rec f (before ++ (ft, x) :: after))
     = entriesOf (flattenLoop rec f (before ++ after)))
  /\
  (forall x' out, flattenField rec f ft x = Ok (x', out) -> out = [])
  /\
  (Field_Exported ft = false ->
   forall f' y, CanSet (Val (fieldFlag f' ft) y) = false).
Proof.
  intros Hp Hi Ha He Hset.
  assert (Hplain : Tag_Cmd tag = false \/ kindOf x <> Ptr ->
                   flattenField rec f ft x = Ok (x, [])).
  { intros Hk. unfold flattenField. rewrite Hp, Hi.
    assert (Hh : hydrate tag (fieldFlag f ft) x
                 = Ok (fieldFlag f ft, x, fun s => s)).
    { unfold hydrate. destruct x; try reflexivity.
      destruct Hk as [Hc | Hk]; [|simpl in Hk; congruence].
      rewrite Hc, He. reflexivity. }
    rewrite Hh. cbn [mbind result_bind]. rewrite Ha, He, Hset.
    reflexivity. }
  split; [|split].
  - intros Hk. split; [exact (Hplain Hk)|].
    intros before after. induction before as [|[ft0 x0] before IH].
    + simpl. rewrite (Hplain Hk). cbn [mbind result_bind].
      unfold entriesOf. destruct (flattenLoop rec f after) as [[r o]| | |];
        reflexivity.
    + simpl. unfold entriesOf in *.
      destruct (flattenField rec f ft0 x0) as [[x1 o1]| | |];
        try reflexivity.
      cbn [mbind result_bind] in *.
      destruct (flattenLoop rec f (before ++ (ft, x) :: after))
        as [[r o]| | |];
        destruct (flattenLoop rec f (before ++ after)) as [[r' o']| | |];
        cbn [mbind result_bind] in *; congruence.
  - intros x' out. unfold flattenField. rewrite Hp, Hi.
    unfold hydrate. destruct x;
      cbn [mbind result_bind]; rewrite ?Ha, ?He, ?Hset;
      try (simpl; intros [= _ <-]; reflexivity).
    destruct (Tag_Cmd tag || false) eqn:Hc.
    + cbn. discriminate.
    + cbn [mbind result_bind]. rewrite ?Ha, ?He, ?Hset.
      simpl; intros [= _ <-]; reflexivity.
  - intros Hex f' y. unfold CanSet, fieldFlag, flagRO. simpl.
    rewrite Hex, Ha. simpl. rewrite orb_true_r.
    apply andb_false_r.
Qed.

(** C10. Positions are assigned by the node builder before the branch
    builder promotes the first positional, and are not assigned again:
    in a compiled tree every argument-branch node holds its promoted
    argument with position 0, and the positionals it keeps carry the
    positions 1, 2, ... in order (so the first of them does not have
    position 0). *)
Theorem C10_promoted_argument_positions fuel k ast app n :
  build fuel k ast = Ok app ->
  n ∈ subnodes (Application_Node app) ->
  Node_Type n = ArgumentNode ->
  exists a, Node_Argument n = Some a /\ Value_Position a = 0 /\
            forall (i : nat) (p : Value),
              Node_Positional n !! i = Some p ->
              Value_Position p = Z.of_nat i + 1.
Proof.
  intros Hb Hin. apply build_inv in Hb
    as (node & seen' & _ & _ & Hn & _ & Happ).
  rewrite subnodes_unfold in Hin. apply elem_of_cons in Hin as [-> | Hin].
  - intros Ht. rewrite Happ in Ht. simpl in Ht.
    apply buildNode_type in Hn. congruence.
  - pose proof (buildNode_descendants argumentPositions
                  argumentPositions_child _ _ _ _ _ _ _ Hn) as Hall.
    rewrite Forall_forall in Hall. apply Hall.
    rewrite Happ in Hin. exact Hin.
Qed.

(** ** Further properties of the builders *)

Lemma bind_Err_inv {A B : Type} (f : A -> result B) (r : result A) e :
  r ≫= f = Err e -> r = Err e \/ exists a, r = Ok a /\ f a = Err e.
Proof.
  destruct r as [a| | |]; simpl; intros Hb; try discriminate.
  - right. exists a. split; [reflexivity | exact Hb].
  - left. injection Hb as ->. reflexivity.
Qed.

Lemma bind_Panic_inv {A B : Type} (f : A -> result B) (r : result A) m :
  r ≫= f = Panic m -> r = Panic m \/ exists a, r = Ok a /\ f a = Panic m.
Proof.
  destruct r as [a| | |]; simpl; intros Hb; try discriminate.
  - right. exists a. split; [reflexivity | exact Hb].
  - left. injection Hb as ->. reflexivity.
Qed.

Lemma find_first {A : Type} (p : A -> bool) (l : list A) (a : A) :
  find p l = Some a ->
  p a = true /\
  exists before after,
    l = before ++ a :: after /\ forall b, b ∈ before -> p b = false.
Proof.
  induction l as [|x l IH]; simpl; [discriminate|].
  destruct (p x) eqn:Hx.
  - intros [= <-]. split; [exact Hx|]. exists [], l. split; [reflexivity|].
    intros b Hb. inversion Hb.
  - intros Hf. destruct (IH Hf) as (Ha & before & after & -> & Hb).
    split; [exact Ha|]. exists (x :: before), after.
    split; [reflexivity|]. intros b Hin.
    apply elem_of_cons in Hin as [-> | Hin]; auto.
Qed.

(** X1. Group resolution: the empty key gives no group; any other key
    gives a group that carries that key, the first predeclared group
    with the key when there is one, and otherwise a group made on the
    spot whose title is the key. *)
Theorem X1_group_resolution (k : Kong) (key : string) :
  (key = "" -> buildGroupForKey k key = None)
  /\
  (key <> "" ->
   exists g,
     buildGroupForKey k key = Some g /\ Group_Key g = key /\
     ((exists before after,
          groups k = before ++ g :: after /\
          forall b, b ∈ before -> Group_Key b <> key)
      \/
      ((forall b, b ∈ groups k -> Group_Key b <> key) /\
       g = mkGroup key key ""))).
Proof.
  unfold buildGroupForKey. split.
  - intros ->. reflexivity.
  - intros Hk. apply String.eqb_neq in Hk. rewrite Hk.
    destruct (find _ (groups k)) as [g|] eqn:Hf.
    + apply find_first in Hf as (Hg & before & after & Hl & Hb).
      apply String.eqb_eq in Hg. exists g. split; [reflexivity|].
      split; [exact Hg|]. left. exists before, after.
      split; [exact Hl|]. intros b Hin. apply String.eqb_neq. auto.
    + exists (mkGroup key key ""). split; [reflexivity|].
      split; [reflexivity|]. right. split; [|reflexivity].
      intros b Hin. apply String.eqb_neq.
      apply (find_none _ _ Hf). apply list_elem_of_In. exact Hin.
Qed.

Lemma bind_flattenOutcome {A B : Type} (r : result A) (k : A -> result B) :
  flattenOutcome r -> (forall a, r = Ok a -> flattenOutcome (k a)) ->
  flattenOutcome (r ≫= k).
Proof. destruct r as [a| | |]; simpl; auto. Qed.

Lemma bind_nodeOutcome {A B : Type} (r : result A) (k : A -> result B) :
  nodeOutcome r -> (forall a, r = Ok a -> nodeOutcome (k a)) ->
  nodeOutcome (r ≫= k).
Proof. destruct r as [a| | |]; simpl; auto. Qed.

Lemma flattenOutcome_nodeOutcome {A : Type} (r : result A) :
  flattenOutcome r -> nodeOutcome r.
Proof.
  destruct r as [a|e|m|]; simpl; auto.
  intros [msg ->]. split; discriminate.
Qed.

Section FlattenOutcomes.

Variable rec : reflectValue -> result (rvalue * list flattenedField).
Hypothesis rec_outcome : forall y, flattenOutcome (rec y).

Lemma flattenElem_outcome fl p : flattenOutcome (flattenElem rec fl p).
Proof.
  unfold flattenElem. destruct p as [c|];
    (apply bind_flattenOutcome; [apply rec_outcome|]);
    intros [y fields] _; exact I.
Qed.

Lemma flattenPlugins_outcome fl elems :
  flattenOutcome (flattenPlugins rec fl elems).
Proof.
  induction elems as [|e rest IH]; [exact I|]. cbn [flattenPlugins].
  apply bind_flattenOutcome; [apply flattenElem_outcome|].
  intros [e' fields] _. apply bind_flattenOutcome; [exact IH|].
  intros [rest' out] _. exact I.
Qed.

Lemma flattenField_outcome f ft x :
  flattenOutcome (flattenField rec f ft x).
Proof.
  unfold flattenField. destruct (parseTag ft) as [tag|msg];
    [|simpl; eauto].
  destruct (Tag_Ignored tag); [exact I|].
  apply bind_flattenOutcome.
  - unfold hydrate. destruct x; try exact I.
    destruct (Tag_Cmd tag || Tag_Embed tag); [|exact I].
    destruct (CanSet _); [exact I|]. left. reflexivity.
  - intros [[fl c] wrap] _.
    destruct (negb (Field_Anonymous ft) && negb (Tag_Embed tag));
      [exact I|].
    destruct c;
      try (apply bind_flattenOutcome;
           [apply rec_outcome | intros [c' sub] _; exact I]).
    + apply bind_flattenOutcome;
        [apply flattenElem_outcome | intros [p' sub] _; exact I].
    + apply bind_flattenOutcome;
        [apply flattenPlugins_outcome | intros [es' sub] _; exact I].
Qed.

Lemma flattenLoop_outcome f fields :
  flattenOutcome (flattenLoop rec f fields).
Proof.
  induction fields as [|[ft x] rest IH]; [exact I|]. cbn [flattenLoop].
  apply bind_flattenOutcome; [apply flattenField_outcome|].
  intros [x' out1] _. apply bind_flattenOutcome; [exact IH|].
  intros [rest' out2] _. exact I.
Qed.

End FlattenOutcomes.

Lemma flattenedFields_outcome fuel :
  forall x, flattenOutcome (flattenedFields fuel x).
Proof.
  induction fuel as [|fuel IH]; intros x; [exact I|].
  cbn [flattenedFields].
  destruct (Indirect x) as [|f [n h fields| | | | | | |]];
    try (right; reflexivity).
  apply bind_flattenOutcome; [apply flattenLoop_outcome; exact IH|].
  intros [fields' out] _. exact I.
Qed.

Lemma flattenLoop_app rec f before after :
  flattenLoop rec f (before ++ after)
  = '(b', out1) ← flattenLoop rec f before;
    '(a', out2) ← flattenLoop rec f after;
    Ok (b' ++ a', out1 ++ out2).
Proof.
  induction before as [|[ft x] before IH].
  - simpl. destruct (flattenLoop rec f after) as [[a' out2]| | |];
      reflexivity.
  - cbn [flattenLoop app]. rewrite IH.
    destruct (flattenField rec f ft x) as [[x' o1]| | |]; try reflexivity.
    cbn [mbind result_bind].
    destruct (flattenLoop rec f before) as [[b' o2]| | |]; try reflexivity.
    cbn [mbind result_bind].
    destruct (flattenLoop rec f after) as [[a' o3]| | |]; try reflexivity.
    cbn [mbind result_bind]. rewrite app_assoc. reflexivity.
Qed.

(** X4. The flattener fails only with a tag failure: every error it
    returns is the error of the Tag Resolver on some field; and it fails
    fast: when the fields before a field flatten and the tag of the
    field does not resolve, the loop returns that failure whatever
    follows. *)
Theorem X4_flatten_errors :
  (forall fuel x e,
      flattenedFields fuel x = Err e -> exists msg, e = ErrTag msg)
  /\
  (forall rec f before ft x after before' out msg,
      flattenLoop rec f before = Ok (before', out) ->
      parseTag ft = inr msg ->
      flattenLoop rec f (before ++ (ft, x) :: after) = Err (ErrTag msg)).
Proof.
  split.
  - intros fuel x e He. pose proof (flattenedFields_outcome fuel x) as Ho.
    rewrite He in Ho. exact Ho.
  - intros rec f before ft x after before' out msg Hb Hp.
    rewrite flattenLoop_app, Hb. cbn [mbind result_bind flattenLoop].
    unfold flattenField. rewrite Hp. reflexivity.
Qed.

Lemma buildField_outcome k node v ft fv tag name seen :
  CanSet fv = true ->
  nodeOutcome (buildField k node v ft fv tag name seen).
Proof.
  intros Hset. unfold buildField.
  destruct (registry_ForNamedValue k (Tag_Type tag) fv);
    [|split; discriminate].
  destruct fv as [|fl c]; [discriminate|].
  destruct (Tag_Arg tag); [exact I|].
  case_bool_decide; [split; discriminate|].
  destruct (Tag_Short tag =? 0); simpl; [exact I|].
  case_bool_decide; simpl; [split; discriminate | exact I].
Qed.

Lemma branchChild_outcome node child tag name :
  nodeOutcome (branchChild node child tag name).
Proof.
  unfold branchChild. destruct (Tag_Arg tag).
  - destruct (Node_Positional child) as [|p ps]; [split; discriminate|].
    destruct (negb _); [split; discriminate | exact I].
  - destruct (negb _); [|exact I].
    destruct (Node_DefaultCmd node); [split; discriminate|].
    destruct (_ && _); [split; discriminate | exact I].
Qed.

Lemma buildChild_outcome rec k node typ v ft fv tag name seen :
  CanSet fv = true ->
  nodeOutcome (rec k fv typ seen) ->
  nodeOutcome (buildChild rec k node typ v ft fv tag name seen).
Proof.
  intros Hset Hrec. unfold buildChild.
  apply bind_nodeOutcome; [exact Hrec|]. intros [child seen'] _.
  rewrite Hset. simpl. apply bind_nodeOutcome;
    [apply branchChild_outcome|].
  intros [node' child'] _. destruct (_ && _); [split; discriminate|].
  exact I.
Qed.

Lemma buildEntries_outcome rec k v fields (d : nat) :
  (forall k fv typ seen, nodeOutcome (rec k fv typ seen)) ->
  Forall (entryBelow d) fields ->
  forall node seen, nodeOutcome (buildEntries rec k v fields node seen).
Proof.
  intros Hrec Hall. induction Hall as [|field rest [Hset _] _ IH];
    intros node seen; [exact I|].
  cbn [buildEntries]. apply bind_nodeOutcome.
  - unfold buildEntry. destruct (existsb _ (ignoreFields k)); [exact I|].
    destruct (_ && _ && _).
    + apply buildChild_outcome; [exact Hset | apply Hrec].
    + apply buildField_outcome. exact Hset.
  - intros [node' seen'] _. apply IH.
Qed.

Lemma buildNode_outcome fuel :
  forall k v typ seen, nodeOutcome (buildNode fuel k v typ seen).
Proof.
  induction fuel as [|fuel IH]; intros k v typ seen; [exact I|].
  cbn [buildNode]. apply bind_nodeOutcome.
  - apply flattenOutcome_nodeOutcome, flattenedFields_outcome.
  - intros [v' fields] Hf. apply flattenedFields_entries in Hf.
    apply bind_nodeOutcome.
    + apply (buildEntries_outcome _ k v fields (depthR v) IH Hf).
    + intros [node seen'] _. apply bind_nodeOutcome; [|intros; exact I].
      destruct (scanPositional_spec (Node_Positional node) true 0)
        as [(_ & n & ->) | (_ & ->)]; [split; discriminate | exact I].
Qed.

Lemma isStructPtr_kinds (ast : option rvalue) :
  isStructPtr ast <->
  rKind (ValueOf ast) = Ptr /\ rKind (Indirect (ValueOf ast)) = Struct.
Proof.
  split.
  - intros (e & n & h & fields & ->). split; reflexivity.
  - intros [Hp Hs]. destruct ast as [[n h fs|e [t|]| | | | | |]|];
      try discriminate.
    destruct t; try discriminate. unfold isStructPtr. eauto.
Qed.

Lemma build_root_check fuel k ast :
  (isStructPtr ast ->
   build fuel k ast
   = '(node, _) ← buildNode fuel k (Indirect (ValueOf ast)) ApplicationNode
                             (seedFlags (extraFlags k));
     if nonEmpty (Node_Positional node) && nonEmpty (Node_Children node)
     then Err ErrMixRoot
     else Ok (mkApplication
                (set_Node_Tag
                   (set_Node_Flags node (extraFlags k ++ Node_Flags node))
                   (set_Tag_Vars newEmptyTag (vars k)))))
  /\ (~ isStructPtr ast -> build fuel k ast = Err ErrNotStructPtr).
Proof.
  split.
  - intros Hs. apply isStructPtr_kinds in Hs as [Hp Hs]. unfold build.
    rewrite Hp, Hs. reflexivity.
  - intros Hn. unfold build.
    destruct (Kind_eqb (rKind (ValueOf ast)) Ptr) eqn:Hp; [|reflexivity].
    destruct (Kind_eqb (rKind (Indirect (ValueOf ast))) Struct) eqn:Hs;
      [|reflexivity].
    exfalso. apply Hn, isStructPtr_kinds. split.
    + destruct (rKind (ValueOf ast)); simpl in Hp; congruence.
    + destruct (rKind (Indirect (ValueOf ast))); simpl in Hs; congruence.
Qed.

(** X2. The root check: [build] answers with the not-a-struct-pointer
    error exactly when the root is not a pointer to a struct (a nil
    interface, a value that is not a pointer, a nil pointer, a pointer to
    something else), whatever the schema below; and with the root's
    mixing error exactly when the root is one and its node was built
    with both children and positionals.  Neither error comes from the
    node builder. *)
Theorem X2_root_errors fuel k ast :
  (build fuel k ast = Err ErrNotStructPtr <-> ~ isStructPtr ast)
  /\
  (build fuel k ast = Err ErrMixRoot <->
   isStructPtr ast /\
   exists node seen',
     buildNode fuel k (Indirect (ValueOf ast)) ApplicationNode
               (seedFlags (extraFlags k)) = Ok (node, seen') /\
     Node_Positional node <> [] /\ Node_Children node <> []).
Proof.
  destruct (build_root_check fuel k ast) as [Hyes Hno].
  pose proof (buildNode_outcome fuel k (Indirect (ValueOf ast))
                ApplicationNode (seedFlags (extraFlags k))) as Hout.
  assert (Hdec : isStructPtr ast \/ ~ isStructPtr ast).
  { destruct ast as [[n h fs|e [[n h fs|? ?|?|?|?|?|?|?]|]| | | | | |]|];
      try (right; intros (e' & n' & h' & fs' & [=]); fail).
    left. unfold isStructPtr. eauto. }
  split; split.
  - intros Hb Hs. rewrite (Hyes Hs) in Hb.
    destruct (buildNode _ _ _ _ _) as [[node s]|e|m|]; simpl in *;
      try discriminate.
    + destruct (_ && _); discriminate.
    + injection Hb as ->. tauto.
  - exact Hno.
  - intros Hb. destruct Hdec as [Hs | Hn];
      [|rewrite (Hno Hn) in Hb; discriminate].
    split; [exact Hs|]. rewrite (Hyes Hs) in Hb.
    destruct (buildNode _ _ _ _ _) as [[node s]|e|m|]; simpl in *;
      try discriminate.
    + exists node, s. split; [reflexivity|].
      destruct (Node_Positional node), (Node_Children node);
        simpl in Hb; try discriminate. split; discriminate.
    + injection Hb as ->. tauto.
  - intros (Hs & node & s & Hn & Hp & Hc). rewrite (Hyes Hs), Hn. simpl.
    destruct (Node_Positional node); [congruence|].
    destruct (Node_Children node); [congruence|]. reflexivity.
Qed.

(** X5. [build] panics only where the flattener does:
    when it writes a hydrated pointer into a slot that cannot be set, or
    when it is asked to flatten something that is not a struct.  The
    leaf builder and the branch builder never panic, because every entry
    the flattener gives them can be set. *)
Theorem X5_build_panics fuel k ast m :
  build fuel k ast = Panic m -> flattenPanic m.
Proof.
  intros Hb. unfold build in Hb. destruct (_ || _); [discriminate|].
  apply bind_Panic_inv in Hb as [Hb | ([node s] & _ & Hb)].
  - pose proof (buildNode_outcome fuel k (Indirect (ValueOf ast))
                  ApplicationNode (seedFlags (extraFlags k))) as Hout.
    rewrite Hb in Hout. exact Hout.
  - destruct (_ && _); discriminate.
Qed.

Lemma flattenLoop_skip rec f ft x before after :
  flattenField rec f ft x = Ok (x, []) ->
  entriesOf (flattenLoop rec f (before ++ (ft, x) :: after))
  = entriesOf (flattenLoop rec f (before ++ after)).
Proof.
  intros Hx. rewrite !flattenLoop_app. cbn [flattenLoop]. rewrite Hx.
  unfold entriesOf.
  destruct (flattenLoop rec f before) as [[b' o1]| | |]; try reflexivity.
  cbn [mbind result_bind].
  destruct (flattenLoop rec f after) as [[a' o2]| | |]; reflexivity.
Qed.

(** X3. A field whose tag is marked ignored is dropped before anything
    else is done with it: whatever its kind (a nil pointer, an
    interface, an embedded struct), its value is left as it is, nothing
    is hydrated or flattened, and the entries of the struct are those of
    the struct without the field. *)
Theorem X3_ignored_field_dropped rec f ft tag x :
  parseTag ft = inl tag ->
  Tag_Ignored tag = true ->
  flattenField rec f ft x = Ok (x, []) /\
  forall before after,
    entriesOf (flattenLoop rec f (before ++ (ft, x) :: after))
    = entriesOf (flattenLoop rec f (before ++ after)).
Proof.
  intros Hp Hi.
  assert (Hx : flattenField rec f ft x = Ok (x, [])).
  { unfold flattenField. rewrite Hp, Hi. reflexivity. }
  split; [exact Hx|]. intros before after.
  apply flattenLoop_skip. exact Hx.
Qed.

Lemma flattenPlugins_concat rec fl elems elems' out :
  flattenPlugins rec fl elems = Ok (elems', out) ->
  length elems' = length elems /\
  exists outs,
    Forall2 (fun e o => entriesOf (flattenElem rec fl e) = Ok o)
            elems outs /\
    out = concat outs.
Proof.
  revert elems' out. induction elems as [|e rest IH]; intros elems' out.
  - intros [= <- <-]. split; [reflexivity|]. exists []. split; constructor.
  - cbn [flattenPlugins]. intros Hb.
    apply bind_Ok_inv in Hb as ([e' fields] & He & Hb).
    apply bind_Ok_inv in Hb as ([rest' out'] & Hr & [= <- <-]).
    destruct (IH _ _ Hr) as (Hlen & outs & Hall & ->).
    split; [simpl; now rewrite Hlen|].
    exists (fields :: outs). split; [|reflexivity].
    constructor; [|exact Hall]. unfold entriesOf. rewrite He. reflexivity.
Qed.

(** X6. An anonymous or embed field that holds a Plugins collection
    gives, in order, the entries of its elements, each flattened from the
    dynamic value of the element, and nothing else: the tags of these
    entries are not composed with the tag of the field (its prefixes and
    group are not applied), an empty collection gives no entry, and the
    collection keeps its length. *)
Theorem X6_plugins_entries rec f ft tag elems x' out :
  parseTag ft = inl tag ->
  Tag_Ignored tag = false ->
  Field_Anonymous ft = true \/ Tag_Embed tag = true ->
  flattenField rec f ft (VPlugins elems) = Ok (x', out) ->
  exists elems' outs,
    x' = VPlugins elems' /\ length elems' = length elems /\
    Forall2 (fun e o =>
               entriesOf (flattenElem rec
                            (ifaceElemFlag (indexFlag (fieldFlag f ft))) e)
               = Ok o)
            elems outs /\
    out = concat outs.
Proof.
  intros Hp Hi Hae. unfold flattenField. rewrite Hp, Hi.
  cbn [hydrate mbind result_bind].
  assert (Hemb : negb (Field_Anonymous ft) && negb (Tag_Embed tag)
                 = false).
  { destruct Hae as [-> | ->]; simpl; [reflexivity|].
    apply andb_false_r. }
  rewrite Hemb. intros Hb.
  apply bind_Ok_inv in Hb as ([elems' fields] & Hpl & [= <- <-]).
  apply flattenPlugins_concat in Hpl as (Hlen & outs & Hall & ->).
  exists elems', outs. auto.
Qed.








(** X9. A built node lists its members in the order of declaration of
    the flattened entries of its struct, and names them from their
    tags: its children are the branch entries that are not excluded,
    its flags the leaf entries without arg, its positionals the leaf
    entries with arg, each under the name of its entry (prefix, then
    the tag name or the lowered dashed field name); a flag has the
    environment name of its entry with the environment prefix before
    it, and the short name of its tag. *)
Theorem X9_members_in_declaration_order fuel k v typ seen node seen' :
  buildNode fuel k v typ seen = Ok (node, seen') ->
  exists v' fields,
    flattenedFields fuel v = Ok (v', fields) /\
    map Node_Name (Node_Children node)
      = map entryName (branchEntries k v fields) /\
    map Flag_Name (Node_Flags node)
      = map entryName (flagEntries k v fields) /\
    map Flag_Env (Node_Flags node)
      = map entryEnv (flagEntries k v fields) /\
    map Flag_Short (Node_Flags node)
      = map (fun e => Tag_Short (ff_tag e)) (flagEntries k v fields) /\
    map Value_Name (Node_Positional node)
      = map entryName (positionalEntries k v fields).
Proof.
  intros Hb. apply buildNode_inv in Hb
    as (fuel' & v' & fields & node1 & seen1 & ps & _ & Hf & He & Hs & ->
        & _).
  exists v', fields. split; [exact Hf|].
  apply buildEntries_order in He as (H1 & H2 & H3 & H4 & H5).
  cbn in H1, H2, H3, H4, H5.
  destruct (scanPositional_spec (Node_Positional node1) true 0)
    as [(_ & n & Hn) | (_ & Hok)]; [congruence|].
  assert (ps = assignPositions 0 (Node_Positional node1)) as ->
    by congruence.
  cbn [Node_Children Node_Flags Node_Positional set_Node_Positional].
  rewrite assignPositions_names. auto.
Qed.

(** X8. Positionals take no part in the registration of names: a run
    of leaf entries with arg whose types have a mapper is always
    accepted, whatever the registration set holds and also when their
    names repeat; it adds one positional per entry in order, and leaves
    the set, the flags and the children as they were. *)
Theorem X8_positionals_not_registered rec k v fields node seen :
  Forall (fun field =>
            excluded k v field = false /\ isBranch k field = false /\
            Tag_Arg (ff_tag field) = true /\
            ff_value field <> NoValue /\
            registry_ForNamedValue k (Tag_Type (ff_tag field))
                                   (ff_value field) <> None)
         fields ->
  exists node',
    buildEntries rec k v fields node seen = Ok (node', seen) /\
    map Value_Name (Node_Positional node')
      = map Value_Name (Node_Positional node) ++ map entryName fields /\
    Node_Flags node' = Node_Flags node /\
    Node_Children node' = Node_Children node.
Proof.
  revert node. induction fields as [|field rest IH]; intros node Hall.
  - exists node. cbn. rewrite app_nil_r. auto.
  - apply Forall_cons in Hall as [(Hex & Hbr & Harg & Hty & Hm) Hrest].
    cbn [buildEntries]. rewrite buildEntry_step, Hex, Hbr. cbv zeta.
    unfold buildField. cbn [Tag_Type set_Tag_Env Tag_Arg].
    destruct (registry_ForNamedValue k (Tag_Type (ff_tag field))
                (ff_value field)) as [mapper|]; [|congruence].
    destruct (ff_value field) as [|fl c]; [congruence|].
    rewrite Harg. cbn [mbind result_bind].
    match goal with
    | |- context [buildEntries rec k v rest ?n seen] =>
        destruct (IH n Hrest) as (node' & Hb & Hp & Hf & Hc)
    end.
    exists node'. split; [exact Hb|]. rewrite Hp, Hf, Hc.
    cbn [Node_Positional Node_Flags Node_Children set_Node_Positional].
    rewrite map_app, <- app_assoc. auto.
Qed.

Lemma buildEntries_header rec k v fields node seen node' seen' :
  buildEntries rec k v fields node seen = Ok (node', seen') ->
  header node' = header node.
Proof.
  intros Hb.
  apply (buildEntries_invariant rec k v
           (fun n _ => header n = header node)) in Hb; auto.
  clear. intros n seen field n' seen' Hn Hb.
  apply buildEntry_cases in Hb
    as [[-> _] | [(tag & name & _ & _ & Hb) | (tag & name & _ & _ & Hb)]];
    [exact Hn| |].
  - apply buildField_inv in Hb
      as [(_ & _ & value & -> & _) | (_ & flag & -> & _)]; exact Hn.
  - apply buildChild_inv in Hb as (c0 & n1 & c & _ & _ & Hbr & -> & _).
    apply branchChild_inv in Hbr
      as [(_ & -> & _) | (_ & _ & [(_ & ->) | (_ & _ & -> & _)])];
      exact Hn.
Qed.

Lemma buildNode_header fuel k v typ seen node seen' :
  buildNode fuel k v typ seen = Ok (node, seen') ->
  header node = header (newNode typ v).
Proof.
  intros Hb. apply buildNode_inv in Hb
    as (fuel' & v' & fields & node1 & seen1 & ps & _ & _ & He & _ & -> & _).
  apply buildEntries_header in He. exact He.
Qed.

Section DescendantsOf.

(** As [buildNode_descendants], for one [k] and with what the loop has
    checked of the field before it calls the branch builder. *)
Variable k : Kong.
Variable P : Node -> Prop.

Hypothesis P_child :
  forall fuel fv seen seen' child0 node node1 child tag name,
    rKind fv = Struct ->
    Tag_Cmd tag || Tag_Arg tag = true ->
    registry_ForValue k fv = None ->
    CanSet fv = true ->
    buildNode fuel k fv (if Tag_Arg tag then ArgumentNode else CommandNode)
              seen = Ok (child0, seen') ->
    branchChild node (dressChild k child0 fv tag name) tag name
      = Ok (node1, child) ->
    nonEmpty (Node_Positional child) && nonEmpty (Node_Children child)
      = false ->
    P child.

Lemma buildNode_descendants_of fuel :
  forall v typ seen node seen',
    buildNode fuel k v typ seen = Ok (node, seen') ->
    Forall P (descendants node).
Proof.
  induction fuel as [|fuel IH]; intros v typ seen node seen' Hb;
    [discriminate|].
  apply buildNode_inv in Hb
    as (fuel' & v' & fields & node1 & seen1 & ps & [= <-] & _ & He & _
        & -> & _).
  change (Forall P (descendants node1)).
  apply (buildEntries_invariant (buildNode fuel) k v
           (fun n _ => Forall P (descendants n))) in He;
    [exact He| |constructor].
  intros n s field n' s' Hn Hb. rewrite buildEntry_step in Hb.
  destruct (excluded k v field); [injection Hb as <- <-; exact Hn|].
  cbv zeta in Hb. destruct (isBranch k field) eqn:Hbr.
  - unfold isBranch in Hbr.
    apply andb_true_iff in Hbr as [Hbr Hnil].
    apply andb_true_iff in Hbr as [Hkind Hca].
    apply buildChild_inv in Hb
      as (c0 & n1 & c & Hrec & Hset & Hbc & -> & Hmix).
    pose proof (branchChild_parent _ _ _ _ _ _ Hbc) as (Hch & _).
    pose proof (branchChild_child _ _ _ _ _ _ Hbc) as (Hcc & _).
    pose proof (dressChild_proj k c0 (ff_value field)
                  (set_Tag_Env (ff_tag field) (entryEnv field))
                  (entryName field)) as (Hdc & _).
    unfold descendants in *. simpl. rewrite Hch.
    rewrite flat_map_app. apply Forall_app. split; [exact Hn|].
    simpl. rewrite app_nil_r, subnodes_unfold. constructor.
    + eapply (P_child fuel (ff_value field) s s' c0 n n1 c
                (set_Tag_Env (ff_tag field) (entryEnv field))
                (entryName field)); auto.
      * destruct (rKind (ff_value field)); simpl in Hkind; congruence.
      * destruct (registry_ForValue k (ff_value field));
          simpl in Hnil; congruence.
    + unfold descendants. rewrite Hcc, Hdc. eapply IH. exact Hrec.
  - apply buildField_inv in Hb
      as [(_ & _ & value & -> & _) | (_ & flag & -> & _)]; exact Hn.
Qed.

End DescendantsOf.

(** X10. Every node below the root of a compiled tree is a branch as
    its field declared it: its tag is a command or argument tag, its
    kind is the argument kind exactly when the tag says arg, its target
    is a settable struct for which no mapper is registered, and its
    hidden mark, aliases and group are those of the tag, the group
    resolved against the declared groups.  Its detail is the text of the
    help provider of the struct, if it is one.  It has a promoted
    argument exactly when it is an argument branch; the argument is
    named like the node and lends its help when the tag has none. *)
Theorem X10_branch_nodes fuel k ast app n :
  build fuel k ast = Ok app ->
  n ∈ descendants (Application_Node app) ->
  Tag_Cmd (Node_Tag n) || Tag_Arg (Node_Tag n) = true /\
  Node_Type n = (if Tag_Arg (Node_Tag n) then ArgumentNode
                 else CommandNode) /\
  rKind (Node_Target n) = Struct /\
  CanSet (Node_Target n) = true /\
  registry_ForValue k (Node_Target n) = None /\
  Node_Hidden n = Tag_Hidden (Node_Tag n) /\
  Node_Aliases n = Tag_Aliases (Node_Tag n) /\
  Node_Group n = buildGroupForKey k (Tag_Group (Node_Tag n)) /\
  Node_Detail n = match helpProvider (Node_Target n) with
                  | Some detail => detail
                  | None => ""
                  end /\
  match Node_Argument n with
  | Some a =>
      Tag_Arg (Node_Tag n) = true /\ Value_Name a = Node_Name n /\
      Node_Help n = (if String.eqb (Tag_Help (Node_Tag n)) ""
                     then Value_Help a else Tag_Help (Node_Tag n))
  | None =>
      Tag_Arg (Node_Tag n) = false /\ Node_Help n = Tag_Help (Node_Tag n)
  end.
Proof.
  intros Hb Hin.
  apply build_inv in Hb as (node & seen' & _ & _ & Hn & _ & Happ).
  rewrite Happ in Hin. change (n ∈ descendants node) in Hin.
  revert n Hin. apply Forall_forall.
  eapply (buildNode_descendants_of k); [|exact Hn].
  clear. intros fuel fv seen seen' c0 node node1 child tag name
           Hkind Hca Hreg Hset Hb Hbr _.
  apply buildNode_header in Hb. unfold header, newNode in Hb.
  cbn in Hb. injection Hb as Hty Hnm Hhp Hdt Hgr Hhd Htg Htag Hal Har.
  assert (Hdress : Node_Target (dressChild k c0 fv tag name) = fv
                 /\ Node_Type (dressChild k c0 fv tag name)
                    = (if Tag_Arg tag then ArgumentNode else CommandNode)
                 /\ Node_Tag (dressChild k c0 fv tag name) = tag
                 /\ Node_Name (dressChild k c0 fv tag name) = name
                 /\ Node_Help (dressChild k c0 fv tag name) = Tag_Help tag
                 /\ Node_Hidden (dressChild k c0 fv tag name)
                    = Tag_Hidden tag
                 /\ Node_Aliases (dressChild k c0 fv tag name)
                    = Tag_Aliases tag
                 /\ Node_Group (dressChild k c0 fv tag name)
                    = buildGroupForKey k (Tag_Group tag)
                 /\ Node_Argument (dressChild k c0 fv tag name) = None
                 /\ Node_Detail (dressChild k c0 fv tag name)
                    = match helpProvider fv with
                      | Some detail => detail
                      | None => Node_Detail c0
                      end).
  { unfold dressChild.
    destruct (helpProvider fv); simpl; auto 20. }
  destruct Hdress
    as (D1 & D2 & D3 & D4 & D5 & D6 & D7 & D8 & D9 & D10).
  rewrite Hdt in D10.
  apply branchChild_inv in Hbr
    as [(Harg & _ & p & ps & Hp & Hpn & ->) | (Harg & -> & _)].
  - unfold promoted. cbn [Node_Help set_Node_Positional set_Node_Argument].
    rewrite D5.
    destruct (String.eqb (Tag_Help tag) "") eqn:Hh; simpl;
      rewrite ?D1, ?D2, ?D3, ?D4, ?D5, ?D6, ?D7, ?D8, ?D10, ?Harg, ?Hh;
      repeat split; auto using orb_true_r.
  - rewrite D1, D2, D3, D5, D6, D7, D8, D9, D10, Harg.
    rewrite Harg in Hca. repeat split; auto.
Qed.

Lemma buildEntries_defaultCmdOk rec k v fields node seen node' seen' :
  defaultCmdOk node ->
  buildEntries rec k v fields node seen = Ok (node', seen') ->
  defaultCmdOk node'.
Proof.
  intros Hd Hb.
  apply (buildEntries_invariant rec k v (fun n _ => defaultCmdOk n)) in Hb;
    [exact Hb| |exact Hd].
  clear. intros n s field n' s' Hn Hb.
  apply buildEntry_cases in Hb
    as [[-> _] | [(tag & name & _ & _ & Hb) | (tag & name & _ & _ & Hb)]];
    [exact Hn| |].
  - apply buildField_inv in Hb
      as [(_ & _ & value & -> & _) | (_ & flag & -> & _)]; exact Hn.
  - apply buildChild_inv in Hb as (c0 & n1 & c & _ & _ & Hbr & -> & _).
    pose proof (dressChild_proj k c0 (ff_value field) tag name)
      as (_ & _ & _ & Hdt & _).
    unfold defaultCmdOk in *. cbn [Node_DefaultCmd Node_Children
                                    set_Node_Children].
    apply branchChild_inv in Hbr
      as [(Ha & -> & _)
         | (Ha & -> & [(Hdf & ->) | (Hdf & Hnone & -> & Hleaf)])].
    + intros d Hd. destruct (Hn d Hd) as (Hin & Hrest).
      split; [|exact Hrest]. apply elem_of_app. left. exact Hin.
    + intros d Hd. destruct (Hn d Hd) as (Hin & Hrest).
      split; [|exact Hrest]. apply elem_of_app. left. exact Hin.
    + cbn [Node_DefaultCmd Node_Children set_Node_DefaultCmd].
      intros d [= <-]. rewrite Hdt.
      split; [apply elem_of_app; right; apply list_elem_of_singleton;
              reflexivity|].
      auto.
Qed.

Lemma buildNode_defaultCmdOk fuel k v typ seen node seen' :
  buildNode fuel k v typ seen = Ok (node, seen') -> defaultCmdOk node.
Proof.
  intros Hb. apply buildNode_inv in Hb
    as (fuel' & v' & fields & node1 & seen1 & ps & _ & _ & He & _ & -> & _).
  apply buildEntries_defaultCmdOk in He; [exact He|].
  intros d Hd. discriminate.
Qed.

(** X11. In a compiled tree the default command of a node, root or
    descendant, is one of the children of that node; it is a command,
    not an argument branch, its tag has a default marker, and unless the
    marker is "withargs" it has neither children nor positionals. *)
Theorem X11_default_command_is_leaf fuel k ast app n d :
  build fuel k ast = Ok app ->
  n ∈ subnodes (Application_Node app) ->
  Node_DefaultCmd n = Some d ->
  d ∈ Node_Children n /\
  Tag_Arg (Node_Tag d) = false /\
  Tag_Default (Node_Tag d) <> "" /\
  (Tag_Default (Node_Tag d) = "withargs" \/
   (Node_Children d = [] /\ Node_Positional d = [])).
Proof.
  intros Hb Hin. revert d.
  change (defaultCmdOk n). revert n Hin. apply Forall_forall.
  apply (build_subnodes defaultCmdOk fuel k ast app); [| |exact Hb].
  - clear. intros fuel k fv seen seen' c0 node node1 child tag name
             Hb Hbr _.
    apply buildNode_defaultCmdOk in Hb.
    pose proof (dressChild_proj k c0 fv tag name)
      as (Hc & _ & _ & _ & Hd & _).
    pose proof (branchChild_child _ _ _ _ _ _ Hbr)
      as (Hcc & _ & _ & _ & Hcd).
    unfold defaultCmdOk in *. rewrite Hcc, Hcd, Hc, Hd. exact Hb.
  - intros node seen' Hn _. apply buildNode_defaultCmdOk in Hn. exact Hn.
Qed.

Lemma requiredAfterOptional_assign (ps : list Value) (i : Z) :
  requiredAfterOptional (assignPositions i ps) <->
  requiredAfterOptional ps.
Proof.
  unfold requiredAfterOptional. split.
  - intros (j & p & q & Hp & Hq & Hrp & Hrq).
    rewrite assignPositions_lookup in Hp, Hq.
    destruct (ps !! j) as [p0|] eqn:Hp0; [|discriminate].
    destruct (ps !! S j) as [q0|] eqn:Hq0; [|discriminate].
    simpl in Hp, Hq. injection Hp as <-. injection Hq as <-.
    exists j, p0, q0. auto.
  - intros (j & p & q & Hp & Hq & Hrp & Hrq).
    exists j, (set_Value_Position p (i + Z.of_nat j)),
           (set_Value_Position q (i + Z.of_nat (S j))).
    rewrite !assignPositions_lookup, Hp, Hq. auto.
Qed.

Lemma optional_tail (p : Value) (ps : list Value) :
  ~ requiredAfterOptional (p :: ps) ->
  Value_Required p = false ->
  forall q, q ∈ ps -> Value_Required q = false.
Proof.
  revert p. induction ps as [|a ps IH]; intros p Hno Hp q Hq.
  - apply elem_of_nil in Hq. destruct Hq.
  - rewrite requiredAfterOptional_cons in Hno.
    assert (Ha : Value_Required a = false).
    { destruct (Value_Required a) eqn:Ha; [|reflexivity].
      exfalso. apply Hno. left. split; [exact Hp|]. exists a. auto. }
    apply elem_of_cons in Hq as [-> | Hq]; [exact Ha|].
    apply (IH a); auto.
Qed.

Lemma requiredFirst_iff (ps : list Value) :
  ~ requiredAfterOptional ps <-> requiredFirst ps.
Proof.
  split.
  - induction ps as [|a ps IH]; intros Hno i j p q Hlt Hp Hq Hrq.
    + discriminate.
    + destruct j as [|j]; [lia|]. cbn in Hq.
      destruct i as [|i].
      * cbn in Hp. injection Hp as ->.
        destruct (Value_Required p) eqn:Hrp; [reflexivity|].
        rewrite (optional_tail p ps Hno Hrp q) in Hrq; [discriminate|].
        eapply list_elem_of_lookup_2. exact Hq.
      * cbn in Hp. apply (IH (fun Hbad => Hno
                                (proj2 (requiredAfterOptional_cons a ps)
                                       (or_intror Hbad)))
                             i j p q); auto. lia.
  - intros Hf (i & p & q & Hp & Hq & Hrp & Hrq).
    rewrite (Hf i (S i) p q) in Hrp; auto. discriminate.
Qed.

Lemma buildNode_arguments fuel k v typ seen node seen' :
  buildNode fuel k v typ seen = Ok (node, seen') ->
  Node_Argument node = None /\
  requiredFirst (Node_Positional node) /\
  forall (i : nat) (p : Value),
    Node_Positional node !! i = Some p -> Value_Position p = Z.of_nat i.
Proof.
  intros Hb. pose proof (buildNode_header _ _ _ _ _ _ _ Hb) as Hh.
  injection Hh as _ _ _ _ _ _ _ _ _ Har.
  split; [exact Har|].
  apply buildNode_inv in Hb
    as (fuel' & v' & fields & node1 & seen1 & ps & _ & _ & _ & Hs & -> & _).
  destruct (scanPositional_spec (Node_Positional node1) true 0)
    as [(_ & n & Hn) | (Hok & Hscan)]; [congruence|].
  assert (ps = assignPositions 0 (Node_Positional node1)) as ->
    by congruence.
  cbn [Node_Positional set_Node_Positional]. split.
  - apply requiredFirst_iff. rewrite requiredAfterOptional_assign.
    intros Hbad. apply Hok. right. exact Hbad.
  - intros i p Hp. rewrite assignPositions_lookup in Hp.
    destruct (Node_Positional node1 !! i); [|discriminate].
    injection Hp as <-. simpl. lia.
Qed.

(** X12. In a compiled tree the arguments of every node, its promoted
    argument if it has one followed by its positionals, are in the order
    the scan has accepted: no required one comes after an optional
    one, at any distance, and each has its index in that sequence as
    its position.  So the promotion of the first positional of an
    argument branch does not disturb the order or the positions. *)
Theorem X12_arguments_ordered fuel k ast app n :
  build fuel k ast = Ok app ->
  n ∈ subnodes (Application_Node app) ->
  requiredFirst (arguments n) /\
  forall (i : nat) (p : Value),
    arguments n !! i = Some p -> Value_Position p = Z.of_nat i.
Proof.
  intros Hb Hin. revert n Hin. apply Forall_forall.
  apply (build_subnodes
           (fun n => requiredFirst (arguments n) /\
                     forall (i : nat) (p : Value),
                       arguments n !! i = Some p ->
                       Value_Position p = Z.of_nat i)
           fuel k ast app); [| |exact Hb].
  - clear. intros fuel k fv seen seen' c0 node node1 child tag name
             Hb Hbr _.
    apply buildNode_arguments in Hb as (Har & Hb).
    pose proof (dressChild_proj k c0 fv tag name)
      as (_ & _ & _ & _ & _ & Hdp & Hda & _).
    assert (Heq : arguments child = Node_Positional c0);
      [|rewrite Heq; exact Hb].
    apply branchChild_inv in Hbr
      as [(_ & _ & p & ps & Hp & _ & ->) | (_ & -> & _)].
    + pose proof (promoted_proj (dressChild k c0 fv tag name) p ps)
        as (_ & _ & _ & _ & _ & Hpp & Hpa).
      unfold arguments. rewrite Hpa, Hpp. congruence.
    + unfold arguments. rewrite Hda, Har. exact Hdp.
  - intros node seen' Hn _.
    apply buildNode_arguments in Hn as (Har & Hn).
    unfold arguments. cbn [Node_Argument Node_Positional set_Node_Tag
                           set_Node_Flags]. rewrite Har. exact Hn.
Qed.






Section FlattenInvariant.

(** A property of the entries appended at line 71 that the
    composition of tags preserves holds of every entry. *)
Variable Q : flattenedField -> Prop.

Hypothesis Q_leaf :
  forall ft tag fl c,
    parseTag ft = inl tag -> Tag_Ignored tag = false ->
    Field_Anonymous ft = false -> Tag_Embed tag = false ->
    CanSet (Val fl c) = true ->
    Q (mkFlattened ft (Val fl c) tag).

Hypothesis Q_compose : forall tag e, Q e -> Q (composeTag tag e).

Lemma Forall_compose tag sub :
  Forall Q sub -> Forall Q (map (composeTag tag) sub).
Proof. induction 1; simpl; constructor; auto. Qed.

Section Loop.

Variable rec : reflectValue -> result (rvalue * list flattenedField).

Hypothesis rec_inv :
  forall y y' out, rec y = Ok (y', out) -> Forall Q out.

Lemma flattenElem_inv fl p p' out :
  flattenElem rec fl p = Ok (p', out) -> Forall Q out.
Proof.
  unfold flattenElem. destruct p as [c|]; intros Hb;
    apply bind_Ok_inv in Hb as ([y fields] & Hr & [= _ <-]);
    apply rec_inv in Hr; exact Hr.
Qed.

Lemma flattenPlugins_inv fl elems elems' out :
  flattenPlugins rec fl elems = Ok (elems', out) -> Forall Q out.
Proof.
  revert elems' out. induction elems as [|e rest IH];
    intros elems' out.
  - intros [= _ <-]. constructor.
  - cbn [flattenPlugins]. intros Hb.
    apply bind_Ok_inv in Hb as ([e' fields] & He & Hb).
    apply bind_Ok_inv in Hb as ([rest' out'] & Hr & [= _ <-]).
    apply Forall_app. split.
    + apply flattenElem_inv in He. exact He.
    + apply IH in Hr. exact Hr.
Qed.

Lemma flattenField_inv f ft x x' out :
  flattenField rec f ft x = Ok (x', out) -> Forall Q out.
Proof.
  unfold flattenField.
  destruct (parseTag ft) as [tag|] eqn:Hp; [|discriminate].
  destruct (Tag_Ignored tag) eqn:Hi; [intros [= _ <-]; constructor|].
  intros Hb. apply bind_Ok_inv in Hb as ([[fl c] wrap] & Hh & Hb).
  destruct (negb (Field_Anonymous ft) && negb (Tag_Embed tag)) eqn:Hae.
  - apply andb_true_iff in Hae as [Ha He].
    apply negb_true_iff in Ha, He.
    destruct (CanSet (Val fl c)) eqn:Hset; injection Hb as _ <-;
      constructor; [|constructor].
    apply Q_leaf; assumption.
  - destruct c as [n h fs|e t|p|es| | | |];
      try (apply bind_Ok_inv in Hb as ([c' sub] & Hr & [= _ <-]);
           apply rec_inv in Hr; apply Forall_compose; exact Hr).
    + apply bind_Ok_inv in Hb as ([p' sub] & Hr & [= _ <-]).
      apply flattenElem_inv in Hr. apply Forall_compose. exact Hr.
    + apply bind_Ok_inv in Hb as ([es' sub] & Hr & [= _ <-]).
      apply flattenPlugins_inv in Hr. exact Hr.
Qed.

Lemma flattenLoop_inv f fields fields' out :
  flattenLoop rec f fields = Ok (fields', out) -> Forall Q out.
Proof.
  revert fields' out.
  induction fields as [|[ft x] rest IH]; intros fields' out.
  - intros [= _ <-]. constructor.
  - cbn [flattenLoop]. intros Hb.
    apply bind_Ok_inv in Hb as ([x' out1] & Hf & Hb).
    apply bind_Ok_inv in Hb as ([rest' out2] & Hr & [= _ <-]).
    apply Forall_app. split.
    + apply flattenField_inv in Hf. exact Hf.
    + apply IH in Hr. exact Hr.
Qed.

End Loop.

Lemma flattenedFields_inv fuel :
  forall x x' out,
    flattenedFields fuel x = Ok (x', out) -> Forall Q out.
Proof.
  induction fuel as [|fuel IH]; intros x x' out; [discriminate|].
  cbn [flattenedFields].
  destruct (Indirect x) as [|f [n h fields| | | | | | |]];
    try discriminate.
  intros Hb. apply bind_Ok_inv in Hb as ([fields' out'] & Hl & [= _ <-]).
  apply (flattenLoop_inv _ IH) in Hl. exact Hl.
Qed.

End FlattenInvariant.

Lemma entryOfField_compose tag e :
  entryOfField e -> entryOfField (composeTag tag e).
Proof.
  intros (Ha & t0 & Hp & Hi & He & Hcore & [p Hpre] & [ep Henv] & Hg & Hv).
  unfold entryOfField, composeTag. cbn [ff_field ff_tag].
  split; [exact Ha|]. exists t0.
  split; [exact Hp|]. split; [exact Hi|]. split; [exact He|].
  destruct (String.eqb (Tag_Group (ff_tag e)) "") eqn:Hge;
    cbn -[String.append]; repeat split.
  - exact Hcore.
  - exists (Tag_Prefix tag +:+ p). rewrite Hpre.
    symmetry. apply string_append_assoc.
  - exists (Tag_EnvPrefix tag +:+ ep). rewrite Henv.
    symmetry. apply string_append_assoc.
  - intros Hne. pose proof (Hg Hne) as Heq.
    apply String.eqb_eq in Hge. congruence.
  - unfold CloneWith. etransitivity; [exact Hv|].
    apply map_union_subseteq_l.
  - exact Hcore.
  - exists (Tag_Prefix tag +:+ p). rewrite Hpre.
    symmetry. apply string_append_assoc.
  - exists (Tag_EnvPrefix tag +:+ ep). rewrite Henv.
    symmetry. apply string_append_assoc.
  - exact Hg.
  - unfold CloneWith. etransitivity; [exact Hv|].
    apply map_union_subseteq_l.
Qed.

(** X14. Every entry of a flattening, at any depth of embedding, stands
    for a named field that can be set: the field is not anonymous, its
    tag parses and is neither ignored nor embed, and the tag of the
    entry is that parsed tag but for what the embedding fields have
    added, which is prefixes in front of the name prefix and of the
    environment prefix, further variables, and a group when the field
    has none.  Nothing else of a tag is changed by the flattener. *)
Theorem X14_entries_are_named_fields fuel x x' out e :
  flattenedFields fuel x = Ok (x', out) ->
  e ∈ out ->
  CanSet (ff_value e) = true /\ entryOfField e.
Proof.
  intros Hf. revert e. apply Forall_forall.
  eapply (flattenedFields_inv
            (fun e => CanSet (ff_value e) = true /\ entryOfField e));
    [| |exact Hf].
  - intros ft tag fl c Hp Hi Ha He Hset. split; [exact Hset|].
    split; [exact Ha|]. exists tag. cbn [ff_field ff_tag].
    repeat split; auto.
    + exists "". reflexivity.
    + exists "". reflexivity.
  - intros tag e0 [Hset He]. split; [exact Hset|].
    apply entryOfField_compose. exact He.
Qed.



(** X17. Only command and embed fields are hydrated.  An anonymous
    pointer field with neither tag is flattened through the pointer as
    it stands: when it is nil the flattener panics, as it does on an
    embedded interface that is nil; when it points to a struct, the
    entries are those of that struct with the tag of the field
    composed, found where the pointer points, and the struct stays
    attached, updated by its own flattening and not replaced by a zero
    value. *)
Theorem X17_embedded_pointer_kept fuel f ft tag e :
  parseTag ft = inl tag ->
  Tag_Ignored tag = false ->
  Field_Anonymous ft = true ->
  Tag_Cmd tag = false -> Tag_Embed tag = false ->
  flattenField (flattenedFields (S fuel)) f ft (VPtr e None)
    = Panic "reflect: call of reflect.Value.NumField on a non-struct" /\
  flattenField (flattenedFields (S fuel)) f ft (VInterface None)
    = Panic "reflect: call of reflect.Value.NumField on a non-struct" /\
  forall n h fields x' out,
    flattenField (flattenedFields (S fuel)) f ft
                 (VPtr e (Some (VStruct n h fields))) = Ok (x', out) ->
    exists fields' sub,
      flattenLoop (flattenedFields fuel) (ptrElemFlag (fieldFlag f ft))
                  fields = Ok (fields', sub) /\
      x' = VPtr e (Some (VStruct n h fields')) /\
      out = map (composeTag tag) sub.
Proof.
  intros Hp Hi Ha Hc He.
  unfold flattenField. rewrite Hp, Hi, Ha.
  cbn [hydrate]. rewrite Hc, He.
  cbn [orb negb andb mbind result_bind].
  split; [reflexivity|]. split; [reflexivity|].
  intros n h fields x' out Hb.
  cbn [flattenedFields Indirect] in Hb.
  apply bind_Ok_inv in Hb as ([c' sub] & Hr & [= <- <-]).
  apply bind_Ok_inv in Hr as ([fields' sub'] & Hl & [= <- <-]).
  exists fields', sub'. auto.
Qed.


(** X18. A field that is not built as a branch needs a mapper: when
    the entries before it are accepted, an entry that is not excluded
    and not a branch (a struct with neither a cmd nor an arg tag is
    one, and so is every field that is not a struct), and for whose
    tag type and value the registry has no mapper, fails the node with
    the unsupported-field-type error on that field, whatever the
    registration set holds and whatever entries follow. *)
Theorem X18_unsupported_field_type
    rec k v before field after node seen node1 seen1 :
  buildEntries rec k v before node seen = Ok (node1, seen1) ->
  excluded k v field = false ->
  isBranch k field = false ->
  registry_ForNamedValue k (Tag_Type (ff_tag field)) (ff_value field)
    = None ->
  buildEntries rec k v (before ++ field :: after) node seen
  = Err (ErrUnsupportedType (Field_Name (ff_field field))).
Proof.
  intros Hb Hex Hbr Hm. rewrite buildEntries_app, Hb.
  cbn [mbind result_bind buildEntries].
  rewrite buildEntry_step, Hex, Hbr. cbv zeta. unfold buildField.
  cbn [Tag_Type set_Tag_Env]. rewrite Hm. reflexivity.
Qed.

End Builders.

(** * The claims on the examples *)

Lemma seedFlags_spec (flags : list Flag) (key : string) :
  key ∈ seedFlags flags <-> key ∈ map Flag_Name flags.
Proof.
  unfold seedFlags.
  assert (Hgen : forall (seen : gset string),
             key ∈ fold_left (fun seen flag => {[Flag_Name flag]} ∪ seen)
                             flags seen
             <-> key ∈ seen \/ key ∈ map Flag_Name flags).
  { induction flags as [|flag flags IH]; intros seen; simpl.
    - split; [auto | intros [Hk | Hk]; [exact Hk | inversion Hk]].
    - rewrite IH, elem_of_union, elem_of_singleton, elem_of_cons. tauto. }
  rewrite Hgen. split; [intros [Hk | Hk] | auto]; [|exact Hk].
  exfalso. exact (not_elem_of_empty key Hk).
Qed.

Section Examples.

#[local] Existing Instance asciiNaming.



(** Scenario A: the two sibling commands both declare [--port]/[-p]. *)
Example siblings_reuse_names :
  map (fun c => (Node_Name c, map Flag_Name (Node_Flags c),
                 map Flag_Short (Node_Flags c)))
      (Node_Children (Application_Node siblingsApp))
  = [("serve", ["port"], [112]); ("build", ["port"], [112])].
Proof. vm_compute. reflexivity. Qed.

(** The same flag declared by the parent before the command fails. *)
Example clash_is_refused :
  build 3 (plainKong []) (pointerTo clashCLI)
  = Err (ErrDuplicateFlag "port").
Proof. vm_compute. reflexivity. Qed.



(** The mixed struct as a plain command meets the mixing error. *)
Example mixed_command_is_refused :
  build 3 (plainKong []) (pointerTo mixCLI) = Err ErrMixChild.
Proof. vm_compute. reflexivity. Qed.


(** Scenario B: [src] then an optional [dst] compiles, with the
    positions 0 and 1; the other order is refused. *)
Example copy_positions :
  option_map
    (fun app => map (fun p => (Value_Name p, Value_Position p,
                               Value_Required p))
                    (Node_Positional (Application_Node app)))
    (match build 2 (plainKong []) (pointerTo copyCLI) with
     | Ok app => Some app
     | _ => None
     end)
  = Some [("src", 0, true); ("dst", 1, false)].
Proof. vm_compute. reflexivity. Qed.

Example optional_first_is_refused :
  build 2 (plainKong [])
    (pointerTo (VStruct "CLI" None
                  [(exportedField "Dst" (tagArg true), VString "");
                   (exportedField "Src" (tagArg false), VString "")]))
  = Err (ErrRequiredAfterOptional "src").
Proof. vm_compute. reflexivity. Qed.

Lemma C4_witness :
  buildNode 2 (plainKong []) (Val newFlag nameStruct) ArgumentNode ∅
  = Ok (nameNode, ∅) /\
  forall node' seen',
    buildChild (buildNode 2) (plainKong []) noNode ArgumentNode NoValue
               (exportedField "Name" (tagArgBranch ""))
               (Val newFlag nameStruct) (tagArgBranch "") "name" ∅
    = Ok (node', seen') ->
    exists p ps child,
      Node_Positional nameNode = p :: ps /\ Value_Name p = "name" /\
      Node_Children node' = Node_Children noNode ++ [child] /\
      Node_Argument child = Some p /\
      Node_Positional child = ps /\
      Node_Help child = (if String.eqb (Tag_Help (tagArgBranch "")) ""
                         then Value_Help p
                         else Tag_Help (tagArgBranch "")).
Proof.
  assert (Hb : buildNode 2 (plainKong []) (Val newFlag nameStruct)
                         ArgumentNode ∅ = Ok (nameNode, ∅))
    by (vm_compute; reflexivity).
  split; [exact Hb|].
  exact (proj1 (proj2 (proj2
           (C4_branch_argument_promotion (buildNode 2) (plainKong [])
              noNode ArgumentNode NoValue
              (exportedField "Name" (tagArgBranch ""))
              (Val newFlag nameStruct) (tagArgBranch "") "name" ∅
              nameNode ∅ eq_refl Hb eq_refl)))).
Defined.

(** C5, as stated, fails: the command field of [hydrateCLI] points to a
    struct that holds 7; after flattening it points to a zero struct. *)
Lemma C5_counterexample :
  exists v' out,
    flattenedFields 2 (Val newFlag hydrateCLI) = Ok (v', out) /\
    v' = VStruct "CLI" None
           [(exportedField "Sub" tagCmd,
             VPtr subType
                  (Some (VStruct "Sub" None
                           [(exportedField "N" newEmptyTag, VInt 0)])))] /\
    v' <> hydrateCLI.
Proof.
  eexists _, _. split; [vm_compute; reflexivity|].
  split; [reflexivity|]. vm_compute. intros Heq. discriminate Heq.
Qed.

Lemma C5_witness :
  flattenField (flattenedFields 1) newFlag (exportedField "Sub" tagCmd)
               (VPtr subType (Some subSeven))
  = flattenField (flattenedFields 1) newFlag (exportedField "Sub" tagCmd)
                 (VPtr subType None).
Proof.
  exact (proj1 (C5_hydration_replaces_reference (flattenedFields 1) newFlag
                  (exportedField "Sub" tagCmd) tagCmd subType
                  (Some subSeven) eq_refl eq_refl eq_refl)).
Defined.

(** C6. The registration set is seeded with the bare names of the
    injected global flags, while the leaf builder looks up and registers
    a flag under its name after two dashes.  A schema flag is therefore
    checked against the global flags only through names that themselves
    begin with two dashes: with the global flag [help] injected, the
    schema flag [Help] is accepted, and the root ends with two flags
    named [help]. *)
Theorem C6_global_flag_seeding :
  (forall (flags : list Flag) (key : string),
      key ∈ seedFlags flags <-> key ∈ map Flag_Name flags)
  /\
  (forall k node v ft fl c tag name mapper,
      registry_ForNamedValue k (Tag_Type tag) (Val fl c) = Some mapper ->
      Tag_Arg tag = false -> Tag_Short tag = 0 ->
      longKey name ∉ map Flag_Name (extraFlags k) ->
      exists node' seen' flag,
        buildField k node v ft (Val fl c) tag name
                   (seedFlags (extraFlags k)) = Ok (node', seen') /\
        Node_Flags node' = Node_Flags node ++ [flag] /\
        Flag_Name flag = name)
  /\
  (exists app f g,
      build 3 (plainKong [helpFlag]) (pointerTo helpCLI) = Ok app /\
      Node_Flags (Application_Node app) = [f; g] /\
      Flag_Name f = "help" /\ Flag_Name g = "help").
Proof.
  split; [exact seedFlags_spec|]. split.
  - intros k node v ft fl c tag name mapper Hm Ha Hs Hout.
    unfold buildField. rewrite Hm, Ha. simpl.
    rewrite bool_decide_eq_false_2; [|now rewrite seedFlags_spec].
    rewrite Hs. simpl. eexists _, _, _. split; [reflexivity|].
    split; reflexivity.
  - eexists _, _, _. split; [vm_compute; reflexivity|].
    split; [reflexivity|]. split; reflexivity.
Qed.

Lemma C6_witness :
  registry_ForNamedValue (plainKong [helpFlag]) (Tag_Type newEmptyTag)
                         (Val newFlag (VBool false)) = Some "builtin" /\
  (longKey "help" ∉ map Flag_Name (extraFlags (plainKong [helpFlag]))) /\
  exists node' seen' flag,
    buildField (plainKong [helpFlag]) noNode NoValue
               (exportedField "Help" newEmptyTag)
               (Val newFlag (VBool false)) newEmptyTag "help"
               (seedFlags (extraFlags (plainKong [helpFlag])))
    = Ok (node', seen') /\
    Node_Flags node' = Node_Flags noNode ++ [flag] /\
    Flag_Name flag = "help".
Proof.
  assert (Hm : registry_ForNamedValue (plainKong [helpFlag])
                 (Tag_Type newEmptyTag) (Val newFlag (VBool false))
               = Some "builtin") by reflexivity.
  assert (Hout : (longKey "help"
                  ∉ map Flag_Name (extraFlags (plainKong [helpFlag])))).
  { vm_compute. intros Hin. inversion Hin as [|? ? ? Hnil]; subst.
    inversion Hnil. }
  split; [exact Hm|]. split; [exact Hout|].
  exact (proj1 (proj2 C6_global_flag_seeding) (plainKong [helpFlag]) noNode
           NoValue (exportedField "Help" newEmptyTag) newFlag (VBool false)
           newEmptyTag "help" "builtin" Hm eq_refl eq_refl Hout).
Defined.


(** Scenario E on the whole compiler. *)
Example nested_prefixes :
  option_map (fun app => map Flag_Name (Node_Flags (Application_Node app)))
    (match build 3 (plainKong []) (pointerTo dbCLI) with
     | Ok app => Some app
     | _ => None
     end)
  = Some ["db-primary-host"].
Proof. vm_compute. reflexivity. Qed.



(** Scenario D: two default commands at the same level are refused. *)
Example two_default_commands :
  build 3 (plainKong []) (pointerTo twoDefaultCmdsCLI)
  = Err ErrMoreThanOneDefault.
Proof. vm_compute. reflexivity. Qed.

(** C9, as stated, fails: the unexported command field of
    [hiddenPtrCLI] is stored as a pointer; it is neither anonymous nor
    embed and its slot cannot be set, and flattening panics on it. *)
Lemma C9_counterexample :
  Field_Anonymous (mkField "sub" false false (inl tagCmd)) = false /\
  Tag_Embed tagCmd = false /\
  CanSet (Val (fieldFlag newFlag (mkField "sub" false false (inl tagCmd)))
              (VPtr subType None)) = false /\
  flattenedFields 2 (Val newFlag hiddenPtrCLI)
  = Panic "reflect.Value.Set on a value that cannot be set" /\
  build 3 (plainKong []) (pointerTo hiddenPtrCLI)
  = Panic "reflect.Value.Set on a value that cannot be set".
Proof. repeat split; vm_compute; reflexivity. Qed.

Lemma C9_witness :
  CanSet (Val (fieldFlag newFlag hiddenField) (VInt 0)) = false /\
  flattenField (flattenedFields 1) newFlag hiddenField (VInt 0)
  = Ok (VInt 0, []).
Proof.
  assert (Hset : CanSet (Val (fieldFlag newFlag hiddenField) (VInt 0))
                 = false) by reflexivity.
  split; [exact Hset|].
  exact (proj1 (proj1 (C9_unsettable_field_omitted (flattenedFields 1)
                         newFlag hiddenField newEmptyTag (VInt 0)
                         eq_refl eq_refl eq_refl eq_refl Hset)
                      (or_introl eq_refl))).
Defined.

(** The unexported field of [hiddenCLI] leaves no trace in the tree. *)
Example hidden_field_is_left_out :
  option_map (fun app => map Flag_Name (Node_Flags (Application_Node app)))
    (match build 2 (plainKong []) (pointerTo hiddenCLI) with
     | Ok app => Some app
     | _ => None
     end)
  = Some ["port"].
Proof. vm_compute. reflexivity. Qed.

Lemma C10_witness :
  build 3 (plainKong []) (pointerTo branchCLI) = Ok branchApp /\
  branchNode ∈ subnodes (Application_Node branchApp) /\
  Node_Type branchNode = ArgumentNode /\
  exists a, Node_Argument branchNode = Some a /\ Value_Position a = 0 /\
            forall (i : nat) (p : Value),
              Node_Positional branchNode !! i = Some p ->
              Value_Position p = Z.of_nat i + 1.
Proof.
  assert (Hb : build 3 (plainKong []) (pointerTo branchCLI) = Ok branchApp)
    by (vm_compute; reflexivity).
  assert (Hin : branchNode ∈ subnodes (Application_Node branchApp))
    by (vm_compute; repeat constructor).
  assert (Ht : Node_Type branchNode = ArgumentNode)
    by (vm_compute; reflexivity).
  split; [exact Hb|]. split; [exact Hin|]. split; [exact Ht|].
  exact (C10_promoted_argument_positions 3%nat (plainKong [])
           (pointerTo branchCLI) branchApp branchNode Hb Hin Ht).
Defined.

End Examples.

(** ** The further properties on the example schemas *)

Section FurtherExamples.

#[local] Existing Instance asciiNaming.

Lemma X1_witness :
  buildGroupForKey groupedKong "" = None /\
  exists g,
    buildGroupForKey groupedKong "net" = Some g /\ Group_Key g = "net" /\
    ((exists before after,
         groups groupedKong = before ++ g :: after /\
         forall b, b ∈ before -> Group_Key b <> "net")
     \/
     ((forall b, b ∈ groups groupedKong -> Group_Key b <> "net") /\
      g = mkGroup "net" "net" "")).
Proof.
  split.
  - exact (proj1 (X1_group_resolution groupedKong "") eq_refl).
  - apply (proj2 (X1_group_resolution groupedKong "net")). discriminate.
Defined.

(** The first of the two groups of the key is taken. *)
Example first_group_wins :
  buildGroupForKey groupedKong "net" = Some (mkGroup "net" "Network" "") /\
  buildGroupForKey groupedKong "io" = Some (mkGroup "io" "io" "").
Proof. split; reflexivity. Qed.

Lemma X2_witness :
  build 3 (plainKong []) (Some copyCLI) = Err ErrNotStructPtr /\
  build 2 (plainKong []) (pointerTo mixedStruct) = Err ErrMixRoot.
Proof.
  split.
  - apply (proj1 (X2_root_errors 3%nat (plainKong []) (Some copyCLI))).
    intros (e & n & h & fs & Heq). discriminate Heq.
  - apply (proj2 (X2_root_errors 2%nat (plainKong [])
                    (pointerTo mixedStruct))).
    split; [unfold isStructPtr, pointerTo, mixedStruct; eauto|].
    exists mixedRoot, ∅.
    split; [vm_compute; reflexivity|].
    split; vm_compute; discriminate.
Defined.

Lemma X3_witness :
  flattenField (flattenedFields 1) newFlag ignoredField
               (VPtr subType None) = Ok (VPtr subType None, []).
Proof.
  exact (proj1 (X3_ignored_field_dropped (flattenedFields 1) newFlag
                  ignoredField tagIgnored (VPtr subType None)
                  eq_refl eq_refl)).
Defined.

Lemma X4_witness :
  flattenedFields 2 (Val newFlag badTagCLI) = Err (ErrTag "bad tag") /\
  exists msg, ErrTag "bad tag" = ErrTag msg.
Proof.
  assert (Hb : flattenedFields 2 (Val newFlag badTagCLI)
               = Err (ErrTag "bad tag")) by (vm_compute; reflexivity).
  split; [exact Hb|].
  exact (proj1 X4_flatten_errors 2%nat (Val newFlag badTagCLI)
               (ErrTag "bad tag") Hb).
Defined.

Lemma X5_witness :
  build 2 (plainKong []) (pointerTo hiddenPtrCLI)
  = Panic "reflect.Value.Set on a value that cannot be set" /\
  flattenPanic "reflect.Value.Set on a value that cannot be set".
Proof.
  assert (Hb : build 2 (plainKong []) (pointerTo hiddenPtrCLI)
               = Panic "reflect.Value.Set on a value that cannot be set")
    by (vm_compute; reflexivity).
  split; [exact Hb|].
  exact (X5_build_panics 2%nat (plainKong []) (pointerTo hiddenPtrCLI)
           _ Hb).
Defined.

Lemma X6_witness :
  exists elems' outs,
    fst pluginsOutcome = VPlugins elems' /\ length elems' = 2%nat /\
    Forall2 (fun e o =>
               entriesOf (flattenElem (flattenedFields 2)
                            (ifaceElemFlag
                               (indexFlag (fieldFlag newFlag pluginsField)))
                            e)
               = Ok o)
            [Some (VPtr (TOther "") (Some portStruct));
             Some (VPtr (TOther "") (Some hostStruct))]
            outs /\
    snd pluginsOutcome = concat outs.
Proof.
  assert (Hb : flattenField (flattenedFields 2) newFlag pluginsField
                 pluginsValue
               = Ok (fst pluginsOutcome, snd pluginsOutcome))
    by (vm_compute; reflexivity).
  exact (X6_plugins_entries (flattenedFields 2) newFlag pluginsField
           newEmptyTag _ _ _ eq_refl eq_refl (or_introl eq_refl) Hb).
Defined.

(** The two elements give their entries in order, with no prefix. *)
Example plugins_entries_in_order :
  map entryName (snd pluginsOutcome) = ["port"; "host"].
Proof. vm_compute. reflexivity. Qed.

Lemma X8_witness :
  exists node',
    buildEntries (buildNode 1) (plainKong []) (Val newFlag copyCLI)
                 copyFields (newNode ApplicationNode (Val newFlag copyCLI))
                 {[ "--src" ]}
    = Ok (node', {[ "--src" ]}) /\
    map Value_Name (Node_Positional node')
      = map Value_Name
            (Node_Positional (newNode ApplicationNode (Val newFlag copyCLI)))
        ++ map entryName copyFields /\
    Node_Flags node'
      = Node_Flags (newNode ApplicationNode (Val newFlag copyCLI)) /\
    Node_Children node'
      = Node_Children (newNode ApplicationNode (Val newFlag copyCLI)).
Proof.
  apply (X8_positionals_not_registered (buildNode 1) (plainKong [])
           (Val newFlag copyCLI) copyFields
           (newNode ApplicationNode (Val newFlag copyCLI)) {[ "--src" ]}).
  repeat (constructor;
          [repeat split; try (vm_compute; reflexivity);
           vm_compute; discriminate|]).
  constructor.
Defined.

Lemma X9_witness :
  exists v' fields,
    flattenedFields 3 (Val newFlag siblingsCLI) = Ok (v', fields) /\
    map Node_Name (Node_Children siblingsNode)
      = map entryName
            (branchEntries (plainKong []) (Val newFlag siblingsCLI) fields)
    /\
    map Flag_Name (Node_Flags siblingsNode)
      = map entryName
            (flagEntries (plainKong []) (Val newFlag siblingsCLI) fields) /\
    map Flag_Env (Node_Flags siblingsNode)
      = map entryEnv
            (flagEntries (plainKong []) (Val newFlag siblingsCLI) fields) /\
    map Flag_Short (Node_Flags siblingsNode)
      = map (fun e => Tag_Short (ff_tag e))
            (flagEntries (plainKong []) (Val newFlag siblingsCLI) fields) /\
    map Value_Name (Node_Positional siblingsNode)
      = map entryName
            (positionalEntries (plainKong []) (Val newFlag siblingsCLI)
                               fields).
Proof.
  assert (Hb : buildNode 3 (plainKong []) (Val newFlag siblingsCLI)
                         ApplicationNode ∅ = Ok (siblingsNode, ∅))
    by (vm_compute; reflexivity).
  exact (X9_members_in_declaration_order 3%nat (plainKong [])
           (Val newFlag siblingsCLI) ApplicationNode ∅ siblingsNode ∅ Hb).
Defined.

Lemma X10_witness :
  Node_Type branchNode = ArgumentNode /\
  CanSet (Node_Target branchNode) = true /\
  match Node_Argument branchNode with
  | Some a => Value_Name a = Node_Name branchNode
  | None => False
  end.
Proof.
  assert (Hb : build 3 (plainKong []) (pointerTo branchCLI) = Ok branchApp)
    by (vm_compute; reflexivity).
  assert (Hin : branchNode ∈ descendants (Application_Node branchApp))
    by (vm_compute; repeat constructor).
  pose proof (X10_branch_nodes 3%nat (plainKong []) (pointerTo branchCLI)
                branchApp branchNode Hb Hin)
    as (_ & Hty & _ & Hset & _ & _ & _ & _ & _ & Harg).
  assert (Ha : Tag_Arg (Node_Tag branchNode) = true)
    by (vm_compute; reflexivity).
  rewrite Ha in Hty. split; [exact Hty|]. split; [exact Hset|].
  destruct (Node_Argument branchNode) as [a|].
  - exact (proj1 (proj2 Harg)).
  - destruct Harg as [Hf _]. rewrite Ha in Hf. discriminate Hf.
Defined.

Lemma X11_witness :
  runNode ∈ Node_Children (Application_Node defaultApp) /\
  Tag_Arg (Node_Tag runNode) = false /\
  Tag_Default (Node_Tag runNode) <> "" /\
  (Tag_Default (Node_Tag runNode) = "withargs" \/
   (Node_Children runNode = [] /\ Node_Positional runNode = [])).
Proof.
  assert (Hb : build 3 (plainKong []) (pointerTo defaultCLI)
               = Ok defaultApp) by (vm_compute; reflexivity).
  assert (Hin : Application_Node defaultApp
                ∈ subnodes (Application_Node defaultApp))
    by (vm_compute; repeat constructor).
  assert (Hd : Node_DefaultCmd (Application_Node defaultApp)
               = Some runNode) by (vm_compute; reflexivity).
  exact (X11_default_command_is_leaf 3%nat (plainKong [])
           (pointerTo defaultCLI) defaultApp (Application_Node defaultApp)
           runNode Hb Hin Hd).
Defined.

Lemma X12_witness :
  requiredFirst (arguments branchNode) /\
  forall (i : nat) (p : Value),
    arguments branchNode !! i = Some p -> Value_Position p = Z.of_nat i.
Proof.
  assert (Hb : build 3 (plainKong []) (pointerTo branchCLI) = Ok branchApp)
    by (vm_compute; reflexivity).
  assert (Hin : branchNode ∈ subnodes (Application_Node branchApp))
    by (vm_compute; repeat constructor).
  exact (X12_arguments_ordered 3%nat (plainKong []) (pointerTo branchCLI)
           branchApp branchNode Hb Hin).
Defined.

(** The promoted argument and the positional left, in order. *)
Example branch_arguments :
  map (fun p => (Value_Name p, Value_Required p, Value_Position p))
      (arguments branchNode)
  = [("name", true, 0); ("rest", false, 1)].
Proof. vm_compute. reflexivity. Qed.


Lemma X14_witness :
  CanSet (ff_value hostEntry) = true /\ entryOfField hostEntry.
Proof.
  assert (Hf : flattenedFields 3 (Val newFlag dbCLI)
               = Ok (fst (okOr (dbCLI, [])
                            (flattenedFields 3 (Val newFlag dbCLI))),
                     dbFields)) by (vm_compute; reflexivity).
  assert (Hin : hostEntry ∈ dbFields) by (vm_compute; repeat constructor).
  exact (X14_entries_are_named_fields 3%nat (Val newFlag dbCLI) _ dbFields
           hostEntry Hf Hin).
Defined.



Lemma X17_witness :
  flattenField (flattenedFields 2) newFlag baseField (VPtr (TOther "") None)
  = Panic "reflect: call of reflect.Value.NumField on a non-struct" /\
  exists fields' sub,
    flattenLoop (flattenedFields 1)
                (ptrElemFlag (fieldFlag newFlag baseField))
                [(exportedField "Port" (tagShort 112), VInt 0)]
    = Ok (fields', sub) /\
    fst baseOutcome = VPtr (TOther "") (Some (VStruct "" None fields')) /\
    snd baseOutcome = map (composeTag newEmptyTag) sub.
Proof.
  pose proof (X17_embedded_pointer_kept 1%nat newFlag baseField newEmptyTag
                (TOther "") eq_refl eq_refl eq_refl eq_refl eq_refl)
    as (Hnil & _ & Hkept).
  split; [exact Hnil|].
  apply (Hkept "" None [(exportedField "Port" (tagShort 112), VInt 0)]
               (fst baseOutcome) (snd baseOutcome)).
  vm_compute. reflexivity.
Defined.

(** The entry found behind the pointer can be set. *)
Example embedded_pointer_entries :
  map (fun e => (entryName e, CanSet (ff_value e))) (snd baseOutcome)
  = [("port", true)].
Proof. vm_compute. reflexivity. Qed.

Lemma X18_witness :
  buildEntries (buildNode 1) (plainKong []) (Val newFlag untaggedCLI)
               ([] ++ subEntry :: tl untaggedFields)
               (newNode ApplicationNode (Val newFlag untaggedCLI)) ∅
  = Err (ErrUnsupportedType (Field_Name (ff_field subEntry))).
Proof.
  apply (X18_unsupported_field_type (buildNode 1) (plainKong [])
           (Val newFlag untaggedCLI) [] subEntry (tl untaggedFields)
           (newNode ApplicationNode (Val newFlag untaggedCLI)) ∅
           (newNode ApplicationNode (Val newFlag untaggedCLI)) ∅).
  - reflexivity.
  - vm_compute. reflexivity.
  - vm_compute. reflexivity.
  - vm_compute. reflexivity.
Defined.

(** A struct field without a cmd tag fails the whole schema. *)
Example untagged_struct_is_refused :
  build 3 (plainKong []) (pointerTo untaggedCLI)
  = Err (ErrUnsupportedType "Sub").
Proof. vm_compute. reflexivity. Qed.

End FurtherExamples.
